(** * Check-Meta: the metadata normalisation layer of [src/App.tsx]

    The development embeds the pure helpers of [App.tsx] ([formatBytes],
    [formatDuration], [getResolutionLabel], [getDetailedCodec]) and the body
    of [analyzeVideo] that runs once the probing engine has answered, and
    proves the properties the specification states about them.

    Conventions of the embedding.
    - A JavaScript string is the byte string of its UTF-8 encoding; equality,
      concatenation, [includes] and [split] on well-formed text are the same
      on both views.
    - A track is a finite map from field names to field values.  The program
      hands every field it reads to [parseInt], [parseFloat], [includes],
      [split] or a template literal, so field values are strings, as in
      MediaInfo's JSON output; an absent key is JavaScript's [undefined].
    - A JavaScript number is [NaN], an infinity or its exact rational value:
      the rounding of IEEE binary64 (and with it overflow and the sign of
      zero) is not modelled.  For whole numbers below 2^53 (file sizes,
      pixel counts, durations in milliseconds) and for numbers of
      thousandths below 10^12 (durations in seconds) the two agree on what
      [formatDuration] computes (floors of quotients, remainders) and on
      the scaling of [formatBytes] (a division by a power of two).
      [Math.log(bytes) / Math.log(k)] is taken at its real value: the
      binary64 quotient has the same floor for byte counts below 10^15, but
      it is rounded up to 5 for the last byte counts below 1024^5.  The
      last digit [toFixed] prints for a bit rate may differ from the one
      printed for the binary64 quotient.  A statement that depends on the
      digits of such a number, or on that index, carries the bound under
      which the two agree.
    - [analyzeVideo] is asynchronous.  [App.analyzeVideo] is one analysis
      from its start to its end; [App.interleave] runs the component with
      analyses that overlap. *)

From Stdlib Require Import ZArith NArith QArith Qround Qabs Qpower String Ascii List Bool Lia.
From Stdlib Require Import DecimalString DecimalN DecimalPos HexadecimalN.
From stdpp Require Import gmap strings.

Local Open Scope string_scope.

(** ** The part of the JavaScript runtime the program uses *)

Module JS.

(** *** Strings *)

(** [s.includes(sub)] *)
Fixpoint includes (s sub : string) : bool :=
  String.prefix sub s ||
  match s with
  | EmptyString => false
  | String _ r => includes r sub
  end.

(** [s.split(sep)] for a one-character separator; the result is never empty. *)
Fixpoint split (sep : ascii) (s : string) : list string :=
  match s with
  | EmptyString => [EmptyString]
  | String c r =>
      if Ascii.eqb c sep then EmptyString :: split sep r
      else match split sep r with
           | p :: ps => String c p :: ps
           | [] => [String c EmptyString]
           end
  end.

(** Truthiness of a string that may be [undefined]. *)
Definition truthy (v : option string) : bool :=
  match v with
  | Some (String _ _) => true
  | _ => false
  end.

(** [a || b] on strings that may be [undefined]. *)
Definition or (a b : option string) : option string :=
  if truthy a then a else b.

(** [a ?? b] *)
Definition nullish (a b : option string) : option string :=
  match a with
  | Some _ => a
  | None => b
  end.

(** A value interpolated in a template literal. *)
Definition to_str (v : option string) : string :=
  match v with
  | Some s => s
  | None => "undefined"
  end.

(** *** Numbers *)

Inductive number : Type :=
  | NaN
  | Infinity
  | NegInfinity
  | Real (q : Q).

Definition of_Z (z : Z) : number := Real (inject_Z z).

Definition isNaN (a : number) : bool :=
  match a with
  | NaN => true
  | _ => false
  end.

(** [a < b] *)
Definition lt (a b : number) : bool :=
  match a, b with
  | NaN, _ => false
  | _, NaN => false
  | Real x, Real y => negb (Qle_bool y x)
  | _, NegInfinity => false
  | NegInfinity, _ => true
  | Infinity, _ => false
  | _, Infinity => true
  end.

(** [a > b] *)
Definition gt (a b : number) : bool := lt b a.

(** [a <= b] *)
Definition le (a b : number) : bool :=
  match a, b with
  | NaN, _ => false
  | _, NaN => false
  | Real x, Real y => Qle_bool x y
  | NegInfinity, _ => true
  | _, Infinity => true
  | _, _ => false
  end.

(** [a >= b] *)
Definition ge (a b : number) : bool := le b a.

(** [a === b] *)
Definition strict_eq (a b : number) : bool :=
  match a, b with
  | Real x, Real y => Qeq_bool x y
  | Infinity, Infinity => true
  | NegInfinity, NegInfinity => true
  | _, _ => false
  end.

(** Truthiness of a number: neither [NaN] nor zero. *)
Definition truthy_num (a : number) : bool :=
  match a with
  | NaN => false
  | Real q => negb (Qeq_bool q 0)
  | _ => true
  end.

(** [a / b] *)
Definition div (a b : number) : number :=
  match a, b with
  | NaN, _ => NaN
  | _, NaN => NaN
  | Real x, Real y =>
      if Qeq_bool y 0 then
        if Qeq_bool x 0 then NaN
        else if Qle_bool 0 x then Infinity else NegInfinity
      else Real (x / y)
  | Real _, _ => Real 0
  | Infinity, Real y => if Qle_bool 0 y then Infinity else NegInfinity
  | NegInfinity, Real y => if Qle_bool 0 y then NegInfinity else Infinity
  | _, _ => NaN
  end.

(** [Math.floor(a)] *)
Definition floor (a : number) : number :=
  match a with
  | Real q => Real (inject_Z (Qfloor q))
  | _ => a
  end.

(** Rounding towards zero, used by the remainder. *)
Definition Qtrunc (q : Q) : Z :=
  if Qle_bool 0 q then Qfloor q else Qceiling q.

(** [a % b]: the remainder has the sign of the dividend. *)
Definition rem (a b : number) : number :=
  match a, b with
  | NaN, _ => NaN
  | _, NaN => NaN
  | Real x, Real y =>
      if Qeq_bool y 0 then NaN
      else Real (x - y * inject_Z (Qtrunc (x / y)))
  | Real _, _ => a
  | _, _ => NaN
  end.

(** [Math.max(a, b)] and [Math.max(...l)] *)
Definition max2 (a b : number) : number :=
  match a, b with
  | NaN, _ => NaN
  | _, NaN => NaN
  | _, _ => if lt a b then b else a
  end.

Definition max (l : list number) : number :=
  fold_left max2 l NegInfinity.

(** *** Reading numbers: [parseInt] and [parseFloat] *)

Definition code (c : ascii) : N := N_of_ascii c.

(** The white space and line terminators [trimStart] removes, in UTF-8:
    TAB, LF, VT, FF, CR, SP; U+00A0; U+1680, U+2000..U+200A, U+2028, U+2029,
    U+202F, U+205F, U+3000 and U+FEFF. *)
Definition ws1 (c : ascii) : bool :=
  let n := code c in
  ((9 <=? n) && (n <=? 13))%N || (n =? 32)%N.

Definition ws2 (c1 c2 : ascii) : bool :=
  ((code c1 =? 194) && (code c2 =? 160))%N.

Definition ws3 (c1 c2 c3 : ascii) : bool :=
  let a := code c1 in
  let b := code c2 in
  let c := code c3 in
  ((a =? 225) && (b =? 154) && (c =? 128))%N
  || ((a =? 226) && (b =? 128)
      && (((128 <=? c) && (c <=? 138)) || (c =? 168) || (c =? 169) || (c =? 175)))%N
  || ((a =? 226) && (b =? 129) && (c =? 159))%N
  || ((a =? 227) && (b =? 128) && (c =? 128))%N
  || ((a =? 239) && (b =? 187) && (c =? 191))%N.

Fixpoint trimStart (s : string) : string :=
  match s with
  | String c1 r1 =>
      if ws1 c1 then trimStart r1
      else match r1 with
           | String c2 r2 =>
               if ws2 c1 c2 then trimStart r2
               else match r2 with
                    | String c3 r3 => if ws3 c1 c2 c3 then trimStart r3 else s
                    | EmptyString => s
                    end
           | EmptyString => s
           end
  | EmptyString => s
  end.

(** An optional sign: [true] for a minus. *)
Definition read_sign (s : string) : bool * string :=
  match s with
  | String c r =>
      if Ascii.eqb c "-" then (true, r)
      else if Ascii.eqb c "+" then (false, r)
      else (false, s)
  | EmptyString => (false, s)
  end.

Definition dec_digit (c : ascii) (d : Decimal.uint) : option Decimal.uint :=
  match (code c - 48)%N with
  | 0%N => if (code c =? 48)%N then Some (Decimal.D0 d) else None
  | 1%N => Some (Decimal.D1 d)
  | 2%N => Some (Decimal.D2 d)
  | 3%N => Some (Decimal.D3 d)
  | 4%N => Some (Decimal.D4 d)
  | 5%N => Some (Decimal.D5 d)
  | 6%N => Some (Decimal.D6 d)
  | 7%N => Some (Decimal.D7 d)
  | 8%N => Some (Decimal.D8 d)
  | 9%N => Some (Decimal.D9 d)
  | _ => None
  end.

Definition is_digit (c : ascii) : bool :=
  ((48 <=? code c) && (code c <=? 57))%N.

(** The longest prefix of decimal digits, and what follows it. *)
Fixpoint scan_digits (s : string) : Decimal.uint * string :=
  match s with
  | String c r =>
      if is_digit c then
        let (d, rest) := scan_digits r in
        match dec_digit c d with
        | Some d' => (d', rest)
        | None => (Decimal.Nil, s)
        end
      else (Decimal.Nil, s)
  | EmptyString => (Decimal.Nil, s)
  end.

Definition hex_value (c : ascii) : option N :=
  let n := code c in
  if ((48 <=? n) && (n <=? 57))%N then Some (n - 48)%N
  else if ((65 <=? n) && (n <=? 70))%N then Some (n - 55)%N
  else if ((97 <=? n) && (n <=? 102))%N then Some (n - 87)%N
  else None.

(** The longest prefix of hexadecimal digits read from the accumulator
    [acc]; the boolean tells whether a digit was read. *)
Fixpoint scan_hex (acc : N) (seen : bool) (s : string) : N * bool :=
  match s with
  | String c r =>
      match hex_value c with
      | Some v => scan_hex (16 * acc + v)%N true r
      | None => (acc, seen)
      end
  | EmptyString => (acc, seen)
  end.

Definition signed (neg : bool) (q : Q) : Q := if neg then Qopp q else q.

(** [parseInt(s)] without a radix: base 16 after [0x] or [0X], else 10. *)
Definition parseInt (s : string) : number :=
  let (neg, s1) := read_sign (trimStart s) in
  if String.prefix "0x" s1 || String.prefix "0X" s1 then
    match scan_hex 0 false (String.substring 2 (String.length s1 - 2) s1) with
    | (v, true) => Real (signed neg (inject_Z (Z.of_N v)))
    | (_, false) => NaN
    end
  else
    match scan_digits s1 with
    | (Decimal.Nil, _) => NaN
    | (d, _) => Real (signed neg (inject_Z (Z.of_N (N.of_uint d))))
    end.

(** [10^n] as a rational, for an exponent of either sign. *)
Definition pow10 (e : Z) : Q :=
  match e with
  | Z0 => 1
  | Zpos p => inject_Z (10 ^ Zpos p)
  | Zneg p => 1 # (10 ^ p)
  end.

(** The exponent part [e±ddd] of a decimal literal, when there is one. *)
Definition read_exponent (s : string) : Z :=
  match s with
  | String c r =>
      if Ascii.eqb c "e" || Ascii.eqb c "E" then
        let (neg, r1) := read_sign r in
        match scan_digits r1 with
        | (Decimal.Nil, _) => 0%Z
        | (d, _) => if neg then (- Z.of_N (N.of_uint d))%Z else Z.of_N (N.of_uint d)
        end
      else 0%Z
  | EmptyString => 0%Z
  end.

(** The value of [ip.fp]: [ip + fp / 10^(digits of fp)]. *)
Definition decimal_value (ip fp : Decimal.uint) : Q :=
  inject_Z (Z.of_N (N.of_uint ip))
  + (Z.of_N (N.of_uint fp) # Pos.of_nat (10 ^ Decimal.nb_digits fp)).

(** [parseFloat(s)] on a string: the longest prefix that is a decimal
    literal, [NaN] when there is none. *)
Definition parseFloat (s : string) : number :=
  let (neg, s1) := read_sign (trimStart s) in
  if String.prefix "Infinity" s1 then (if neg then NegInfinity else Infinity)
  else
    let (ip, s2) := scan_digits s1 in
    let (fp, s3) :=
      match s2 with
      | String c r => if Ascii.eqb c "." then scan_digits r else (Decimal.Nil, s2)
      | EmptyString => (Decimal.Nil, s2)
      end in
    match ip, fp with
    | Decimal.Nil, Decimal.Nil => NaN
    | _, _ => Real (signed neg (decimal_value ip fp * pow10 (read_exponent s3)))
    end.

(** *** Printing numbers: [String(x)] and [x.toFixed(f)] *)

Definition N_to_string (n : N) : string :=
  NilEmpty.string_of_uint (N.to_uint n).

Definition digit_char (d : Z) : ascii := ascii_of_N (48 + Z.to_N d).

(** The decimal digits of [r / d] for [0 <= r < d], by long division,
    stopping when the remainder vanishes. *)
Fixpoint frac_digits (fuel : nat) (r d : Z) : string :=
  match fuel with
  | O => EmptyString
  | S f =>
      if (r =? 0)%Z then EmptyString
      else String (digit_char (10 * r / d)) (frac_digits f (10 * r mod d) d)
  end.

(** The decimal expansion of a rational [q >= 0]; it is exact when the
    expansion terminates, which [Pos.size_nat] digits are enough for. *)
Definition Q_to_string (q : Q) : string :=
  let n := Qnum q in
  let d := Zpos (Qden q) in
  let r := (n mod d)%Z in
  N_to_string (Z.to_N (n / d))
  ++ (if (r =? 0)%Z then EmptyString
      else String "." (frac_digits (Pos.size_nat (Qden q)) r d)).

(** [String(x)], as in a template literal or [x + ' '], in plain decimal
    notation (JavaScript switches to exponent notation from 1e21 on and
    below 1e-6, which no number the program prints on a real file reaches). *)
Definition to_string (x : number) : string :=
  match x with
  | NaN => "NaN"
  | Infinity => "Infinity"
  | NegInfinity => "-Infinity"
  | Real q => if Qle_bool 0 q then Q_to_string q else String "-" (Q_to_string (- q))
  end.

(** [n] written with exactly [f] digits (the low ones when there are more). *)
Fixpoint fixed_digits (f : nat) (n : Z) : string :=
  match f with
  | O => EmptyString
  | S f' => fixed_digits f' (n / 10) ++ String (digit_char (n mod 10)) EmptyString
  end.

(** [x.toFixed(f)] for [0 <= f <= 100]: [n] is the integer nearest to
    [|x| * 10^f], the larger one on a tie. *)
Definition toFixed (f : nat) (x : number) : string :=
  match x with
  | Real q =>
      if Qle_bool (inject_Z (10 ^ 21)) (Qabs q) then to_string x
      else
        let n := Qfloor (Qabs q * inject_Z (10 ^ Z.of_nat f) + (1 # 2)) in
        let digits :=
          N_to_string (Z.to_N (n / 10 ^ Z.of_nat f))
          ++ match f with
             | O => EmptyString
             | S _ => String "." (fixed_digits f n)
             end in
        if Qle_bool 0 q then digits else String "-" digits
  | _ => to_string x
  end.

(** [Math.pow(b, e)] for integers [b] and [e]. *)
Definition pow (b e : Z) : number := Real (inject_Z b ^ e).

(** [Math.floor(Math.log(x) / Math.log(k))] at its real value, for [x >= 1]
    and [k >= 2]: how often [x] can be divided by [k] before it drops
    below [k].  (In binary64 the quotient of the two logarithms of the
    program has this floor for [k = 1024] and [x < 10^15]; for
    [1024^5 - 3 <= x < 1024^5] it is rounded to 5.) *)
Fixpoint floor_log_from (fuel : nat) (k x : Z) : Z :=
  match fuel with
  | O => 0
  | S f => if (x <? k)%Z then 0%Z else (1 + floor_log_from f k (x / k))%Z
  end.

Definition floor_log (k x : Z) : Z :=
  floor_log_from (S (Z.to_nat (Z.log2 x))) k x.

(** *** Values of type [any] that are a string or a number *)

Inductive value : Type :=
  | Str (s : string)
  | Num (n : number).

(** [!v] is [negb (truthy_value v)]. *)
Definition truthy_value (v : value) : bool :=
  match v with
  | Str s => truthy (Some s)
  | Num n => truthy_num n
  end.

(** [parseFloat(v)]: a number is first converted to a string, and reading
    that string gives the number back. *)
Definition parseFloat_value (v : value) : number :=
  match v with
  | Str s => parseFloat s
  | Num n => n
  end.

(** [a || b] for a string or [undefined] on the left and a string on the
    right, and for two strings. *)
Definition or_else (a : option string) (b : string) : string :=
  match a with
  | Some (String c r) => String c r
  | _ => b
  end.

Definition or_str (a b : string) : string :=
  match a with
  | EmptyString => b
  | _ => a
  end.

End JS.

(** ** The data the program works on *)

(** A [File] of the browser, as far as the program reads it. *)
Module File.
Record t : Type := { name : string; size : N; lastModified : Z }.
End File.

(** A track of the probing engine: field name to field value. *)
Abbreviation Track := (gmap string string).

Record Media : Type := { track : list Track }.

(** The object [analyzeData] resolves to; [media] may be missing. *)
Record MediaInfoResult : Type := { media : option Media }.

(** What awaiting the probing engine yields: it throws, or returns. *)
Inductive Probe : Type :=
  | Throws (message : string)
  | Returns (result : MediaInfoResult).

Module App.

Record VideoMetadata : Type := {
  name : string;
  updatedDate : string;
  size : string;
  resolution : string;
  resolutionLabel : string;
  bitRate : string;
  bitRateMode : string;
  frameRate : string;
  duration : string;
  container : string;
  videoCodec : string;
  audioCodec : string
}.

(** The sentinel the program shows for a value it could not determine. *)
Definition unknown : string := "不明".

(** *** [formatBytes] (lines 21-28) *)

Definition sizes : list string := ["Bytes"; "KB"; "MB"; "GB"; "TB"].

(** [decimals] is the optional second parameter; [toFixed] would throw for
    more than 100 digits, which no call of the program asks for. *)
Definition formatBytes (bytes : N) (decimals : Z) : string :=
  if (bytes =? 0)%N then "0 Bytes"
  else
    let k := 1024%Z in
    let dm := if (decimals <? 0)%Z then 0%Z else decimals in
    let i := JS.floor_log k (Z.of_N bytes) in
    JS.to_string
      (JS.parseFloat
         (JS.toFixed (Z.to_nat dm) (JS.div (JS.of_Z (Z.of_N bytes)) (JS.pow k i))))
    ++ " " ++ JS.to_str (sizes !! Z.to_nat i).

(** The call [formatBytes(file.size)], with [decimals = 2] by default. *)
Definition formatSize (bytes : N) : string := formatBytes bytes 2.

(** *** [formatDuration] (lines 30-59) *)

Definition formatDuration (value : JS.value) (durationStr3 : option string) : string :=
  if JS.truthy durationStr3 && JS.includes (JS.to_str durationStr3) ":" then
    let parts := JS.split "." (JS.to_str durationStr3) in
    hd EmptyString parts
  else if negb (JS.truthy_value value) then unknown
  else
    let num := JS.parseFloat_value value in
    if JS.isNaN num || JS.le num (JS.of_Z 0) then unknown
    else
      let totalSeconds := JS.floor (JS.div num (JS.of_Z 1000)) in
      let totalSeconds :=
        if JS.strict_eq totalSeconds (JS.of_Z 0) && JS.gt num (JS.of_Z 0)
        then JS.floor num else totalSeconds in
      let seconds := JS.rem totalSeconds (JS.of_Z 60) in
      let minutes := JS.floor (JS.rem (JS.div totalSeconds (JS.of_Z 60)) (JS.of_Z 60)) in
      let hours := JS.floor (JS.div totalSeconds (JS.of_Z 3600)) in
      let h := if JS.gt hours (JS.of_Z 0) then JS.to_string hours ++ ":" else EmptyString in
      let m :=
        if JS.gt hours (JS.of_Z 0) then
          (if JS.lt minutes (JS.of_Z 10) then "0" ++ JS.to_string minutes ++ ":"
           else JS.to_string minutes ++ ":")
        else JS.to_string minutes ++ ":" in
      let s :=
        if JS.lt seconds (JS.of_Z 10) then "0" ++ JS.to_string seconds
        else JS.to_string seconds in
      h ++ m ++ s.

(** *** [getResolutionLabel] (lines 61-68) *)

Definition getResolutionLabel (width height : JS.number) : string :=
  let max := JS.max2 width height in
  if JS.ge max (JS.of_Z 3840) then "4K"
  else if JS.ge max (JS.of_Z 2560) then "2K"
  else if JS.ge max (JS.of_Z 1920) then "FullHD"
  else if JS.ge max (JS.of_Z 1280) then "HD"
  else "SD".

(** *** [getDetailedCodec] (lines 70-106) *)

Definition getDetailedCodec (track : option Track) : string :=
  match track with
  | None => unknown
  | Some track =>
      let format := JS.or_else (track !! "Format") EmptyString in
      let info := JS.or_else (track !! "Format_Information") EmptyString in
      let profile := JS.or_else (track !! "Format_Profile") EmptyString in
      let isoName := JS.or_str info format in
      let ituName := format in
      let '(isoName, ituName) :=
        if String.eqb format "AVC" then ("Advanced Video Coding", "H.264")
        else if String.eqb format "HEVC" then ("High Efficiency Video Coding", "H.265")
        else if String.eqb format "MPEG-4 Visual" then ("MPEG-4 Part 2", "Visual")
        else (isoName, ituName) in
      let '(isoName, ituName) :=
        if String.eqb format "AAC" then ("Advanced Audio Coding", "MPEG-4 AAC")
        else (isoName, ituName) in
      let result := isoName in
      let result :=
        if JS.truthy (Some ituName) && negb (String.eqb ituName isoName)
        then isoName ++ "（" ++ ituName ++ "）" else result in
      let result :=
        if JS.truthy (Some profile) && negb (String.eqb profile "Base")
           && negb (String.eqb profile "Main") && negb (JS.includes result profile)
        then result ++ " [" ++ profile ++ "]" else result in
      JS.or_else (JS.or (Some result) (track !! "CodecID")) unknown
  end.

(** *** The component state and [analyzeVideo] (lines 109-175) *)

Record State : Type := {
  isDragging : bool;
  metadata : option VideoMetadata;
  isAnalyzing : bool;
  error : option string
}.

Definition setMetadata (m : option VideoMetadata) (st : State) : State :=
  {| isDragging := isDragging st; metadata := m;
     isAnalyzing := isAnalyzing st; error := error st |}.

Definition setIsAnalyzing (b : bool) (st : State) : State :=
  {| isDragging := isDragging st; metadata := metadata st;
     isAnalyzing := b; error := error st |}.

Definition setError (e : option string) (st : State) : State :=
  {| isDragging := isDragging st; metadata := metadata st;
     isAnalyzing := isAnalyzing st; error := e |}.

(** The message of the [else] branch: no General and no Video track. *)
Definition NoMediaTrack : string :=
  "動画情報の解析に失敗しました。対応していないファイル形式の可能性があります。".

(** The message of the [catch] branch for an error whose message is [msg]. *)
Definition ProbeFailure (msg : string) : string :=
  "解析中にエラーが発生しました: " ++ msg.

(** How the [try] block ends. *)
Inductive completion : Type :=
  | Normal (st : State)
  | Thrown (message : string).

(** [t?.f] and [t['@type'] === ty] *)
Definition field (t : option Track) (f : string) : option string :=
  t ≫= (λ m, m !! f).

Definition has_type (ty : string) (t : Track) : bool :=
  bool_decide (t !! "@type" = Some ty).

(** [result.media?.track.find((t) => t['@type'] === ty)] *)
Definition find_track (result : MediaInfoResult) (ty : string) : option Track :=
  (track <$> media result) ≫= List.find (has_type ty).

(** [`${(parseInt(bits) / 1000000).toFixed(2)} Mbps`] *)
Definition mbps (bits : string) : string :=
  JS.toFixed 2 (JS.div (JS.parseInt bits) (JS.of_Z 1000000)) ++ " Mbps".

Section Analyze.

(** [new Date(ms).toLocaleString('ja-JP')]: locale and time zone belong to
    the browser. *)
Variable toLocaleString : Z → string.

Definition try_block (file : File.t) (probe : Probe) (st : State) : completion :=
  match probe with
  | Throws message => Thrown message
  | Returns result =>
      let tracks := track <$> media result in
      let general := find_track result "General" in
      let video := find_track result "Video" in
      let audio := find_track result "Audio" in
      if bool_decide (is_Some video) || bool_decide (is_Some general) then
        let width :=
          match video with
          | Some v => JS.parseInt (JS.to_str (v !! "Width"))
          | None => JS.of_Z 0
          end in
        let height :=
          match video with
          | Some v => JS.parseInt (JS.to_str (v !! "Height"))
          | None => JS.of_Z 0
          end in
        let ds3 :=
          JS.or (JS.or (field general "Duration_String3") (field video "Duration_String3"))
                (field audio "Duration_String3") in
        let durations :=
          (λ ts, List.filter (λ d, negb (JS.isNaN d) && JS.gt d (JS.of_Z 0))
                   (List.map (λ t : Track, JS.parseFloat (JS.to_str (t !! "Duration"))) ts))
          <$> tracks in
        (* [None] stands for the [TypeError] of [durations.length] when
           [durations] is [undefined] *)
        let rawDuration :=
          match JS.or (JS.or (field general "Duration") (field video "Duration"))
                      (field audio "Duration") with
          | Some (String c r) => Some (JS.Str (String c r))
          | _ =>
              match durations with
              | Some ds =>
                  Some (JS.Num (if (0 <? length ds)%nat then JS.max ds else JS.of_Z 0))
              | None => None
              end
          end in
        match rawDuration with
        | None =>
            (* [durations.length] on [undefined]; the message is V8's *)
            Thrown "Cannot read properties of undefined (reading 'length')"
        | Some rawDuration =>
            Normal (setMetadata (Some {|
              name := File.name file;
              updatedDate := toLocaleString (File.lastModified file);
              size := formatSize (File.size file);
              resolution :=
                if JS.truthy_num width && JS.truthy_num height
                then JS.to_string width ++ " x " ++ JS.to_string height else unknown;
              resolutionLabel :=
                if JS.truthy_num width && JS.truthy_num height
                then getResolutionLabel width height else unknown;
              bitRate :=
                if JS.truthy (field video "BitRate")
                then mbps (JS.to_str (field video "BitRate"))
                else if JS.truthy (field general "OverallBitRate")
                then mbps (JS.to_str (field general "OverallBitRate"))
                else unknown;
              bitRateMode :=
                JS.or_else (JS.or (field video "BitRate_Mode")
                                  (field general "OverallBitRate_Mode")) unknown;
              frameRate :=
                match video with
                | Some v =>
                    JS.to_str (JS.nullish (JS.nullish (v !! "FrameRate")
                                                      (v !! "FrameRate_Nominal"))
                                          (Some unknown)) ++ " fps"
                | None => unknown
                end;
              duration := formatDuration rawDuration ds3;
              container := JS.or_else (field general "Format") unknown;
              videoCodec := getDetailedCodec video;
              audioCodec := getDetailedCodec audio
            |}) st)
        end
      else Normal (setError (Some NoMediaTrack) st)
  end.

Definition analyzeVideo (file : File.t) (probe : Probe) (st : State) : State :=
  let st := setIsAnalyzing true st in
  let st := setError None st in
  let st := setMetadata None st in
  let st :=
    match try_block file probe st with
    | Normal st' => st'
    | Thrown message => setError (Some (ProbeFailure message)) st
    end in
  setIsAnalyzing false st.

End Analyze.

(** *** The drag-and-drop handlers (lines 177-191) and the file input
    (lines 236-239)

    [e.preventDefault()] acts on the event, not on the component state.
    In [onDrop], [onChange] and [run] an analysis is taken to run to its
    end before the next event is handled; [probe] is what the probing
    engine answers for the file.  Analyses that overlap are modelled by
    [interleave] below. *)

Definition setIsDragging (b : bool) (st : State) : State :=
  {| isDragging := b; metadata := metadata st;
     isAnalyzing := isAnalyzing st; error := error st |}.

Definition onDragOver (st : State) : State := setIsDragging true st.

Definition onDragLeave (st : State) : State := setIsDragging false st.

Section Handlers.

Variable toLocaleString : Z → string.

(** [files] is [e.dataTransfer.files]. *)
Definition onDrop (files : list File.t) (probe : Probe) (st : State) : State :=
  let st := setIsDragging false st in
  match files !! 0%nat with
  | Some file => analyzeVideo toLocaleString file probe st
  | None => st
  end.

(** [files] is [e.target.files], which may be [null]. *)
Definition onChange (files : option (list File.t)) (probe : Probe) (st : State) : State :=
  match files ≫= (λ fs, fs !! 0%nat) with
  | Some file => analyzeVideo toLocaleString file probe st
  | None => st
  end.

(** The events the component reacts to, and the component as a transition
    system started in the state of its [useState] calls. *)
Inductive Event : Type :=
  | DragOver
  | DragLeave
  | Drop (files : list File.t) (probe : Probe)
  | Change (files : option (list File.t)) (probe : Probe).

Definition handle (st : State) (e : Event) : State :=
  match e with
  | DragOver => onDragOver st
  | DragLeave => onDragLeave st
  | Drop files probe => onDrop files probe st
  | Change files probe => onChange files probe st
  end.

Definition initial : State :=
  {| isDragging := false; metadata := None; isAnalyzing := false; error := None |}.

Definition run (events : list Event) : State := fold_left handle events initial.

(** *** Analyses that overlap

    [analyzeVideo] is [async], and [onDrop] and [onChange] do not await it.
    Its statements before the first [await] run with the event that starts
    the analysis; the rest runs when the probing engine has answered, and
    other events, the start and the end of other analyses among them, may
    be handled in between.  No handler reads the state, so a state is
    determined by the order of these steps. *)

(** The part of [analyzeVideo] before its first [await] (lines 115-117). *)
Definition analyzeVideo_start (st : State) : State :=
  let st := setIsAnalyzing true st in
  let st := setError None st in
  setMetadata None st.

(** The part that runs once the probing engine has answered with [probe]
    (lines 129-174), on the state of that moment. *)
Definition analyzeVideo_finish (file : File.t) (probe : Probe) (st : State) : State :=
  let st :=
    match try_block toLocaleString file probe st with
    | Normal st' => st'
    | Thrown message => setError (Some (ProbeFailure message)) st
    end in
  setIsAnalyzing false st.

(** The component with the analyses that were started and have not ended,
    each with the answer the probing engine will give. *)
Record Component : Type := {
  state : State;
  pending : list (File.t * Probe)
}.

(** A step is an event of the user or the answer of the probing engine to
    the [k]-th analysis still running. *)
Inductive Step : Type :=
  | Fire (e : Event)
  | Settle (k : nat).

(** [if (file) analyzeVideo(file)] without waiting for the result. *)
Definition launch (file : option File.t) (probe : Probe) (c : Component) : Component :=
  match file with
  | Some file =>
      {| state := analyzeVideo_start (state c); pending := pending c ++ [(file, probe)] |}
  | None => c
  end.

Definition step (c : Component) (s : Step) : Component :=
  match s with
  | Fire DragOver => {| state := onDragOver (state c); pending := pending c |}
  | Fire DragLeave => {| state := onDragLeave (state c); pending := pending c |}
  | Fire (Drop files probe) =>
      launch (files !! 0%nat) probe
        {| state := setIsDragging false (state c); pending := pending c |}
  | Fire (Change files probe) => launch (files ≫= (λ fs, fs !! 0%nat)) probe c
  | Settle k =>
      match pending c !! k with
      | Some (file, probe) =>
          {| state := analyzeVideo_finish file probe (state c);
             pending := delete k (pending c) |}
      | None => c
      end
  end.

Definition interleave (steps : list Step) : Component :=
  fold_left step steps {| state := initial; pending := [] |}.

(** The steps of [run]: every analysis ends before the next event. *)
Definition serial (events : list Event) : list Step :=
  List.flat_map (λ e, [Fire e; Settle 0]) events.

End Handlers.

(** *** [metadataItems] (lines 193-204) and the badge of a row (lines 287-289) *)

Inductive Icon : Type :=
  | FileVideo | Calendar | Clock | HardDrive | Monitor | Zap | Play | Box
  | ShieldCheck | Volume2.

Module Item.
Record t : Type := {
  label : string;
  value : string;
  icon : Icon;
  color : string;
  badge : option string;
  badgeColor : option string
}.
End Item.

Definition metadataItems (metadata : option VideoMetadata) : list Item.t :=
  match metadata with
  | Some metadata =>
      [ {| Item.label := "ファイル名"; Item.value := name metadata; Item.icon := FileVideo;
           Item.color := "#3b82f6"; Item.badge := None; Item.badgeColor := None |};
        {| Item.label := "更新日時"; Item.value := updatedDate metadata;
           Item.icon := Calendar; Item.color := "#64748b";
           Item.badge := None; Item.badgeColor := None |};
        {| Item.label := "再生時間"; Item.value := duration metadata; Item.icon := Clock;
           Item.color := "#06b6d4"; Item.badge := None; Item.badgeColor := None |};
        {| Item.label := "容量"; Item.value := size metadata; Item.icon := HardDrive;
           Item.color := "#10b981"; Item.badge := None; Item.badgeColor := None |};
        {| Item.label := "解像度"; Item.value := resolution metadata; Item.icon := Monitor;
           Item.color := "#f59e0b"; Item.badge := Some (resolutionLabel metadata);
           Item.badgeColor := Some "badge-blue" |};
        {| Item.label := "ビットレート"; Item.value := bitRate metadata; Item.icon := Zap;
           Item.color := "#f43f5e";
           Item.badge := if String.eqb (bitRateMode metadata) "不明" then None
                         else Some (bitRateMode metadata);
           Item.badgeColor := Some "badge-purple" |};
        {| Item.label := "フレームレート"; Item.value := frameRate metadata;
           Item.icon := Play; Item.color := "#8b5cf6";
           Item.badge := None; Item.badgeColor := None |};
        {| Item.label := "コンテナ"; Item.value := container metadata; Item.icon := Box;
           Item.color := "#ec4899"; Item.badge := None; Item.badgeColor := None |};
        {| Item.label := "動画コーデック"; Item.value := videoCodec metadata;
           Item.icon := ShieldCheck; Item.color := "#f97316";
           Item.badge := None; Item.badgeColor := None |};
        {| Item.label := "音声コーデック"; Item.value := audioCodec metadata;
           Item.icon := Volume2; Item.color := "#a855f7";
           Item.badge := None; Item.badgeColor := None |} ]
  | None => []
  end.

(** [item.badge && <span className={`badge ${item.badgeColor}`}>{item.badge}</span>]:
    the class name and the text of the badge, when one is rendered. *)
Definition badge_span (item : Item.t) : option (string * string) :=
  if JS.truthy (Item.badge item)
  then Some ("badge " ++ JS.to_str (Item.badgeColor item), JS.to_str (Item.badge item))
  else None.

End App.

(** ** The specification's vocabulary

    Definitions written after the specification's wording; the theorems
    below compare the program with them. *)

Module Spec.

(** The probe's track sequence (empty when [media] is missing). *)
Definition tracks_of (result : MediaInfoResult) : list Track :=
  match media result with
  | Some m => track m
  | None => []
  end.

(** The sequence contains a track whose discriminator is [ty]. *)
Definition has_track (result : MediaInfoResult) (ty : string) : Prop :=
  ∃ t : Track, In t (tracks_of result) ∧ t !! "@type" = Some ty.

(** The first of three optional strings that is present and not empty
    (the last one when neither of the first two is). *)
Definition first_present (a b c : option string) : option string :=
  match a with
  | Some (String _ _) => a
  | _ => match b with
         | Some (String _ _) => b
         | _ => c
         end
  end.

(** The preformatted duration, priority General > Video > Audio. *)
Definition preformatted (general video audio : option Track) : option string :=
  first_present (App.field general "Duration_String3") (App.field video "Duration_String3")
                (App.field audio "Duration_String3").

(** [sub] occurs in [s]. *)
Definition substring_of (sub s : string) : Prop :=
  ∃ before after : string, s = before ++ sub ++ after.

(** [p] is [s] truncated at its first ['.'] (all of [s] when it has none). *)
Definition truncated_at_dot (s p : string) : Prop :=
  ¬ substring_of "." p ∧ (s = p ∨ ∃ rest, s = p ++ "." ++ rest).

(** The positive durations parsed from all tracks of the probe. *)
Definition positive_durations (ts : list Track) : list JS.number :=
  List.filter (λ d, negb (JS.isNaN d) && JS.gt d (JS.of_Z 0))
    (List.map (λ t : Track, JS.parseFloat (JS.to_str (t !! "Duration"))) ts).

(** The raw duration: General's, else Video's, else Audio's, else the
    maximum over all tracks (zero when no track has one). *)
Definition raw_duration (general video audio : option Track) (ts : list Track) : JS.value :=
  match first_present (App.field general "Duration") (App.field video "Duration")
                      (App.field audio "Duration") with
  | Some (String c r) => JS.Str (String c r)
  | _ => JS.Num (match positive_durations ts with
                 | [] => JS.of_Z 0
                 | ds => JS.max ds
                 end)
  end.

(** An integer in decimal notation. *)
Definition dec (z : Z) : string :=
  if (z <? 0)%Z then String "-" (JS.N_to_string (Z.to_N (- z)))
  else JS.N_to_string (Z.to_N z).

(** A number below 100 written with exactly two digits. *)
Definition two_digits (n : Z) : string :=
  String (JS.digit_char (n / 10)) (String (JS.digit_char (n mod 10)) EmptyString).

(** [H:MM:SS] when there are hours, else [M:SS]. *)
Definition hms (totalSeconds : Z) : string :=
  let hours := (totalSeconds / 3600)%Z in
  let minutes := (totalSeconds / 60 mod 60)%Z in
  let seconds := (totalSeconds mod 60)%Z in
  if (0 <? hours)%Z then dec hours ++ ":" ++ two_digits minutes ++ ":" ++ two_digits seconds
  else dec minutes ++ ":" ++ two_digits seconds.

(** Milliseconds by default; whole seconds when that floors to zero. *)
Definition total_seconds (q : Q) : Z :=
  if (Qfloor (q / 1000) =? 0)%Z then Qfloor q else Qfloor (q / 1000).

(** A pixel count: zero stands for an absent or unparseable one. *)
Definition pixels (n : JS.number) : Z :=
  match n with
  | JS.Real q => Qfloor q
  | _ => 0%Z
  end.

(** The resolution class of §4.3. *)
Definition classify (width height : Z) : string :=
  if (width =? 0)%Z || (height =? 0)%Z then App.unknown
  else
    let long_edge := Z.max width height in
    if (3840 <=? long_edge)%Z then "4K"
    else if (2560 <=? long_edge)%Z then "2K"
    else if (1920 <=? long_edge)%Z then "FullHD"
    else if (1280 <=? long_edge)%Z then "HD"
    else "SD".

Definition resolution_string (width height : Z) : string :=
  if (width =? 0)%Z || (height =? 0)%Z then App.unknown
  else dec width ++ " x " ++ dec height.

(** The codec lookup table of §4.7. *)
Definition codec_table : list (string * (string * string)) :=
  [ ("AVC", ("Advanced Video Coding", "H.264"));
    ("HEVC", ("High Efficiency Video Coding", "H.265"));
    ("MPEG-4 Visual", ("MPEG-4 Part 2", "Visual"));
    ("AAC", ("Advanced Audio Coding", "MPEG-4 AAC")) ].

Definition in_table (format : string) : Prop :=
  In format (List.map fst codec_table).

(** The name pair of a format code: the table's entry, else the format
    information (the code itself when there is none) and the code. *)
Definition canonical_names (format info : string) : string * string :=
  match List.find (λ e, String.eqb (fst e) format) codec_table with
  | Some e => snd e
  | None => (match info with EmptyString => format | _ => info end, format)
  end.

(** The long name alone, or [Long（Short）] when the two names differ. *)
Definition display (long short : string) : string :=
  if String.eqb long short then long else long ++ "（" ++ short ++ "）".

(** The profile suffix is wanted. *)
Definition profile_shown (composed profile : string) : Prop :=
  profile ≠ EmptyString ∧ profile ≠ "Base" ∧ profile ≠ "Main"
  ∧ ¬ substring_of profile composed.

(** [n / 100] with at most two decimals, trailing zeros trimmed. *)
Definition shortest_decimal (n : Z) : string :=
  let ip := (n / 100)%Z in
  let d1 := (n mod 100 / 10)%Z in
  let d0 := (n mod 10)%Z in
  dec ip ++
  (if (n mod 100 =? 0)%Z then EmptyString
   else if (d0 =? 0)%Z then String "." (String (JS.digit_char d1) EmptyString)
   else String "." (String (JS.digit_char d1) (String (JS.digit_char d0) EmptyString))).

(** A whole number of thousandths below 10^12: a duration in milliseconds,
    or in seconds with up to three decimals.  On these numbers the binary64 arithmetic of [formatDuration] gives the
    floors and remainders of the exact quotients. *)
Definition thousandths (q : Q) : Prop :=
  (∃ n : Z, q == n # 1000)%Q ∧ (q < 1000000000000)%Q.

(** A state that shows only outcomes of analyses: its record, if any, is
    the record of one analysed file, and its error, if any, is one of the
    two messages of [analyzeVideo]. *)
Definition genuine (toLocaleString : Z → string) (st : App.State) : Prop :=
  (∀ m, App.metadata st = Some m →
     ∃ file result,
       App.metadata (App.analyzeVideo toLocaleString file (Returns result) App.initial)
       = Some m)
  ∧ (∀ e, App.error st = Some e →
       e = App.NoMediaTrack ∨ ∃ message, e = App.ProbeFailure message).

(** What may follow a number in a field: nothing, or text that starts with
    neither a digit nor the [x] of a hexadecimal prefix. *)
Definition plain_suffix (rest : string) : Prop :=
  match rest with
  | EmptyString => True
  | String c _ => JS.is_digit c = false ∧ c ≠ "x"%char ∧ c ≠ "X"%char
  end.

End Spec.

(** ** Sample inputs *)

Module Examples.

Definition locale (ms : Z) : string := "2024/1/1 0:00:00".

Definition file : File.t :=
  {| File.name := "clip.mp4"; File.size := 1536; File.lastModified := 0 |}.

Definition idle : App.State :=
  {| App.isDragging := false; App.metadata := None;
     App.isAnalyzing := false; App.error := None |}.

Definition probe_of (ts : list Track) : MediaInfoResult :=
  {| media := Some {| track := ts |} |}.

Definition audio_aac : Track := {[ "@type" := "Audio"; "Format" := "AAC" ]}.

Definition general_mp4 : Track :=
  {[ "@type" := "General"; "Format" := "MPEG-4"; "Duration" := "135000" ]}.

Definition video_4k : Track :=
  {[ "@type" := "Video"; "Format" := "HEVC"; "Width" := "3840"; "Height" := "2160" ]}.

Definition video_hd : Track :=
  {[ "@type" := "Video"; "Format" := "AVC"; "Width" := "1280"; "Height" := "720";
     "FrameRate" := "29.970" ]}.

Definition video_zero : Track :=
  {[ "@type" := "Video"; "Format" := "AVC"; "Width" := "0"; "Height" := "0" ]}.

(** A Video track without [FrameRate] and [FrameRate_Nominal]. *)
Definition video_no_rate : Track :=
  {[ "@type" := "Video"; "Format" := "AVC"; "Width" := "1920"; "Height" := "1080" ]}.

Definition avc_high : Track := {[ "Format" := "AVC"; "Format_Profile" := "High" ]}.

Definition avc_main : Track := {[ "Format" := "AVC"; "Format_Profile" := "Main" ]}.

(** A format code outside the table, with a codec identifier. *)
Definition vp9 : Track := {[ "Format" := "VP9"; "CodecID" := "V_VP9" ]}.

(** No format code and no format information. *)
Definition codec_id_only : Track := {[ "CodecID" := "V_VP9" ]}.

(** A General track whose preformatted duration starts with the
    fractional-seconds separator. *)
Definition general_dot : Track :=
  {[ "@type" := "General"; "Format" := "MPEG-4"; "Duration_String3" := ".:" ]}.

Definition general_preformatted : Track :=
  {[ "@type" := "General"; "Format" := "MPEG-4"; "Duration" := "135500";
     "Duration_String3" := "00:02:15.500" ]}.

(** One and a half pebibytes. *)
Definition petabytes : N := 1688849860263936.

(** A General track whose duration does not parse. *)
Definition general_bad_duration : Track :=
  {[ "@type" := "General"; "Format" := "MPEG-4"; "Duration" := "abc" ]}.

Definition general_plain : Track := {[ "@type" := "General"; "Format" := "MPEG-4" ]}.

Definition general_overall : Track :=
  {[ "@type" := "General"; "Format" := "MPEG-4"; "OverallBitRate" := "8000000" ]}.

Definition video_with_duration : Track :=
  {[ "@type" := "Video"; "Format" := "AVC"; "Duration" := "5000" ]}.

(** A track of another type that alone carries a duration. *)
Definition text_with_duration : Track := {[ "@type" := "Text"; "Duration" := "65000" ]}.

(** A Video track whose [FrameRate] is the empty string. *)
Definition video_empty_rate : Track :=
  {[ "@type" := "Video"; "FrameRate" := EmptyString; "FrameRate_Nominal" := "30.000" ]}.

(** A Video track whose [BitRate] is not a number. *)
Definition video_bad_bitrate : Track := {[ "@type" := "Video"; "BitRate" := "variable" ]}.

(** A Video track whose dimensions carry a unit. *)
Definition video_with_units : Track :=
  {[ "@type" := "Video"; "Width" := "1920 pixels"; "Height" := "1080 pixels" ]}.

(** A track with a profile and nothing else to name it. *)
Definition profile_only : Track := {[ "Format_Profile" := "High"; "CodecID" := "avc1" ]}.

End Examples.

(** ** Proof automation *)

(** Case analysis on an integer known to lie in [0, 100). *)
Ltac below_100 f :=
  let k := fresh "k" in
  let Hk := fresh "Hk" in
  match goal with
  | H : (0 <= f < 100)%Z |- _ =>
      assert (∃ k, f = Z.of_nat k ∧ (k < 100)%nat) as [k [-> Hk]]
        by (exists (Z.to_nat f); lia);
      clear H; do 100 (destruct k as [|k]; [try reflexivity|]); [lia]
  end.

Import App.

(** ** Lemmas on strings *)

Lemma append_cons c (s t : string) : String c s ++ t = String c (s ++ t).
Proof. reflexivity. Qed.

Lemma append_nil_l (s : string) : EmptyString ++ s = s.
Proof. reflexivity. Qed.

Lemma append_nil_r (s : string) : s ++ EmptyString = s.
Proof. induction s as [|c s IH]; [reflexivity|]. rewrite append_cons, IH. reflexivity. Qed.

Lemma append_assoc (a b c : string) : (a ++ b) ++ c = a ++ (b ++ c).
Proof. induction a as [|x a IH]; [reflexivity|]. rewrite !append_cons, IH. reflexivity. Qed.

Lemma length_append (a b : string) :
  String.length (a ++ b) = (String.length a + String.length b)%nat.
Proof.
  induction a as [|x a IH]; [reflexivity|]. rewrite append_cons. simpl. rewrite IH. reflexivity.
Qed.

Lemma append_nonempty_r (a b : string) : b ≠ EmptyString → a ++ b ≠ EmptyString.
Proof.
  intros Hb H. apply (f_equal String.length) in H. rewrite length_append in H.
  destruct b; [contradiction|]. simpl in H. lia.
Qed.

Lemma append_nonempty_l (a b : string) : a ≠ EmptyString → a ++ b ≠ EmptyString.
Proof. destruct a; [contradiction|discriminate]. Qed.

(** ** Lemmas on numbers *)

Lemma Qle_bool_inject a b : Qle_bool (inject_Z a) (inject_Z b) = (a <=? b)%Z.
Proof. unfold Qle_bool. simpl. rewrite !Z.mul_1_r. reflexivity. Qed.

Lemma Qeq_bool_inject a b : Qeq_bool (inject_Z a) (inject_Z b) = (a =? b)%Z.
Proof. unfold Qeq_bool. simpl. rewrite !Z.mul_1_r. reflexivity. Qed.

Lemma le_of_Z a b : JS.le (JS.of_Z a) (JS.of_Z b) = (a <=? b)%Z.
Proof. apply Qle_bool_inject. Qed.

Lemma lt_of_Z a b : JS.lt (JS.of_Z a) (JS.of_Z b) = (a <? b)%Z.
Proof.
  unfold JS.lt, JS.of_Z. rewrite Qle_bool_inject. rewrite Z.ltb_antisym. reflexivity.
Qed.

Lemma truthy_of_Z a : JS.truthy_num (JS.of_Z a) = negb (a =? 0)%Z.
Proof.
  unfold JS.truthy_num, JS.of_Z. change 0%Q with (inject_Z 0).
  rewrite Qeq_bool_inject. reflexivity.
Qed.

Lemma max2_of_Z a b : JS.max2 (JS.of_Z a) (JS.of_Z b) = JS.of_Z (Z.max a b).
Proof.
  unfold JS.max2. rewrite lt_of_Z. unfold JS.of_Z.
  destruct (Z.ltb_spec a b); f_equal; f_equal; lia.
Qed.

Lemma to_string_of_Z z : JS.to_string (JS.of_Z z) = Spec.dec z.
Proof.
  unfold JS.to_string, JS.of_Z, Spec.dec. change 0%Q with (inject_Z 0).
  rewrite Qle_bool_inject. unfold JS.Q_to_string. simpl Qnum. simpl Qden.
  rewrite !Z.mod_1_r, !Z.div_1_r. simpl.
  destruct (Z.leb_spec 0 z), (Z.ltb_spec z 0); try lia; rewrite ?append_nil_r; reflexivity.
Qed.

Lemma parseInt_cases s : JS.parseInt s = JS.NaN ∨ ∃ z, JS.parseInt s = JS.of_Z z.
Proof.
  unfold JS.parseInt. destruct (JS.read_sign _) as [neg s1].
  destruct (_ || _).
  - destruct (JS.scan_hex _ _ _) as [v [|]]; [right|left; reflexivity].
    destruct neg; eexists; reflexivity.
  - destruct (JS.scan_digits s1) as [d r].
    destruct d; [left; reflexivity| right; destruct neg; eexists; reflexivity ..].
Qed.

Lemma pixels_of_Z z : Spec.pixels (JS.of_Z z) = z.
Proof. unfold Spec.pixels, JS.of_Z. apply Qfloor_Z. Qed.

(** ** Track selection *)

Lemma find_track_Some result ty t :
  find_track result ty = Some t → In t (Spec.tracks_of result) ∧ t !! "@type" = Some ty.
Proof.
  unfold find_track, Spec.tracks_of. destruct (media result) as [m|]; simpl; [|discriminate].
  intros H. apply find_some in H as [Hin Hty]. split; [exact Hin|].
  unfold has_type in Hty. apply bool_decide_eq_true in Hty. exact Hty.
Qed.

Lemma find_track_None result ty :
  find_track result ty = None ↔ ¬ Spec.has_track result ty.
Proof.
  unfold find_track, Spec.has_track, Spec.tracks_of. destruct (media result) as [m|]; simpl.
  - split.
    + intros H [t [Hin Hty]]. pose proof (find_none _ _ H t Hin) as Hf.
      unfold has_type in Hf. apply bool_decide_eq_false in Hf. contradiction.
    + intros H. destruct (find (has_type ty) (track m)) as [t|] eqn:E; [|reflexivity].
      exfalso. apply H. exists t. apply find_some in E as [Hin Hty]. split; [exact Hin|].
      unfold has_type in Hty. apply bool_decide_eq_true in Hty. exact Hty.
  - split; [|reflexivity]. intros _ [t [[] _]].
Qed.

Lemma find_track_is_Some result ty :
  is_Some (find_track result ty) ↔ Spec.has_track result ty.
Proof.
  split.
  - intros [t Ht]. exists t. apply find_track_Some. exact Ht.
  - intros H. destruct (find_track result ty) eqn:E; [eauto|].
    apply find_track_None in E. contradiction.
Qed.

Lemma find_track_media result ty t :
  find_track result ty = Some t → ∃ m, media result = Some m.
Proof.
  unfold find_track. destruct (media result) as [m|]; [eauto|discriminate].
Qed.

Lemma or_or_first_present a b c : JS.or (JS.or a b) c = Spec.first_present a b c.
Proof. destruct a as [[|]|], b as [[|]|]; reflexivity. Qed.

(** ** What [analyzeVideo] leaves in the state *)

Section Analysis.

Variable toLocaleString : Z → string.

Lemma try_block_no_track file result st :
  find_track result "Video" = None → find_track result "General" = None →
  try_block toLocaleString file (Returns result) st = Normal (setError (Some NoMediaTrack) st).
Proof.
  intros Hv Hg. unfold try_block. rewrite Hv, Hg. reflexivity.
Qed.

(** The [try] block never throws once the probing engine has returned. *)
Lemma try_block_track file result st :
  is_Some (find_track result "Video") ∨ is_Some (find_track result "General") →
  ∃ m, try_block toLocaleString file (Returns result) st = Normal (setMetadata (Some m) st).
Proof.
  intros H.
  assert (∃ md, media result = Some md) as [md Hmd].
  { destruct H as [[t Ht]|[t Ht]]; eapply find_track_media; eauto. }
  unfold try_block.
  assert (bool_decide (is_Some (find_track result "Video"))
          || bool_decide (is_Some (find_track result "General")) = true) as ->.
  { apply orb_true_iff. destruct H; [left|right]; apply bool_decide_eq_true; assumption. }
  rewrite Hmd. simpl.
  destruct (JS.or _ _) as [[|c r]|]; simpl; eauto.
Qed.

Lemma analyzeVideo_no_track file result st :
  find_track result "Video" = None → find_track result "General" = None →
  analyzeVideo toLocaleString file (Returns result) st =
  {| isDragging := isDragging st; metadata := None; isAnalyzing := false;
     error := Some NoMediaTrack |}.
Proof.
  intros Hv Hg. unfold analyzeVideo. rewrite try_block_no_track by assumption. reflexivity.
Qed.

Lemma analyzeVideo_success file result st :
  is_Some (find_track result "Video") ∨ is_Some (find_track result "General") →
  ∃ m, analyzeVideo toLocaleString file (Returns result) st =
         {| isDragging := isDragging st; metadata := Some m; isAnalyzing := false;
            error := None |}.
Proof.
  intros H. unfold analyzeVideo.
  destruct (try_block_track file result
              (setMetadata None (setError None (setIsAnalyzing true st))) H) as [m ->].
  exists m. reflexivity.
Qed.

(** Every field of a produced record, in terms of the selected tracks. *)
Lemma analyzeVideo_fields file result st m :
  metadata (analyzeVideo toLocaleString file (Returns result) st) = Some m →
  let general := find_track result "General" in
  let video := find_track result "Video" in
  let audio := find_track result "Audio" in
  let width := match video with
               | Some v => JS.parseInt (JS.to_str (v !! "Width"))
               | None => JS.of_Z 0
               end in
  let height := match video with
                | Some v => JS.parseInt (JS.to_str (v !! "Height"))
                | None => JS.of_Z 0
                end in
  (is_Some video ∨ is_Some general)
  ∧ name m = File.name file
  ∧ updatedDate m = toLocaleString (File.lastModified file)
  ∧ size m = formatSize (File.size file)
  ∧ resolution m = (if JS.truthy_num width && JS.truthy_num height
                    then JS.to_string width ++ " x " ++ JS.to_string height else unknown)
  ∧ resolutionLabel m = (if JS.truthy_num width && JS.truthy_num height
                         then getResolutionLabel width height else unknown)
  ∧ bitRate m = (if JS.truthy (field video "BitRate")
                 then mbps (JS.to_str (field video "BitRate"))
                 else if JS.truthy (field general "OverallBitRate")
                 then mbps (JS.to_str (field general "OverallBitRate"))
                 else unknown)
  ∧ bitRateMode m = JS.or_else (JS.or (field video "BitRate_Mode")
                                      (field general "OverallBitRate_Mode")) unknown
  ∧ frameRate m = match video with
                  | Some v => JS.to_str (JS.nullish (JS.nullish (v !! "FrameRate")
                                                               (v !! "FrameRate_Nominal"))
                                                    (Some unknown)) ++ " fps"
                  | None => unknown
                  end
  ∧ duration m = formatDuration (Spec.raw_duration general video audio (Spec.tracks_of result))
                                (Spec.preformatted general video audio)
  ∧ container m = JS.or_else (field general "Format") unknown
  ∧ videoCodec m = getDetailedCodec video
  ∧ audioCodec m = getDetailedCodec audio.
Proof.
  intros Hm general video audio width height.
  destruct (bool_decide (is_Some video) || bool_decide (is_Some general)) eqn:Hsel.
  2:{ exfalso. apply orb_false_iff in Hsel as [Hv Hg].
      apply bool_decide_eq_false in Hv, Hg.
      rewrite analyzeVideo_no_track in Hm; [discriminate| |].
      - destruct (find_track result "Video") eqn:E; [|reflexivity].
        exfalso. apply Hv. unfold video. rewrite ?E. eauto.
      - destruct (find_track result "General") eqn:E; [|reflexivity].
        exfalso. apply Hg. unfold general. rewrite ?E. eauto. }
  assert (is_Some video ∨ is_Some general) as Hsome.
  { apply orb_true_iff in Hsel as [H|H]; apply bool_decide_eq_true in H; auto. }
  split; [exact Hsome|].
  assert (∃ md, media result = Some md) as [md Hmd].
  { destruct Hsome as [[t Ht]|[t Ht]]; eapply find_track_media; eauto. }
  revert Hm. unfold analyzeVideo, try_block.
  fold general video audio. rewrite Hsel.
  fold width height.
  rewrite !or_or_first_present.
  unfold Spec.raw_duration, Spec.preformatted, Spec.tracks_of, Spec.positive_durations.
  rewrite Hmd. cbn [fmap option_fmap option_map].
  destruct (Spec.first_present (field general "Duration") _ _) as [[|c r]|];
    cbn [metadata setMetadata setError setIsAnalyzing]; intros [= <-];
    cbn [name updatedDate size resolution resolutionLabel bitRate bitRateMode frameRate
         duration container videoCodec audioCodec];
    repeat split; try reflexivity.
  all: destruct (List.filter _ _); reflexivity.
Qed.

End Analysis.

(** ** Resolution *)

Lemma getResolutionLabel_of_Z w h :
  w ≠ 0%Z → h ≠ 0%Z → getResolutionLabel (JS.of_Z w) (JS.of_Z h) = Spec.classify w h.
Proof.
  intros Hw Hh. unfold getResolutionLabel, Spec.classify, JS.ge.
  rewrite max2_of_Z, !le_of_Z.
  destruct (Z.eqb_spec w 0), (Z.eqb_spec h 0); try contradiction. reflexivity.
Qed.

Lemma resolution_cases (n k : JS.number) :
  (n = JS.NaN ∨ ∃ z, n = JS.of_Z z) → (k = JS.NaN ∨ ∃ z, k = JS.of_Z z) →
  (if JS.truthy_num n && JS.truthy_num k then getResolutionLabel n k else unknown)
    = Spec.classify (Spec.pixels n) (Spec.pixels k)
  ∧ (if JS.truthy_num n && JS.truthy_num k
     then JS.to_string n ++ " x " ++ JS.to_string k else unknown)
    = Spec.resolution_string (Spec.pixels n) (Spec.pixels k).
Proof.
  intros [->|[w ->]] [->|[h ->]]; rewrite ?pixels_of_Z, ?truthy_of_Z;
    unfold Spec.classify, Spec.resolution_string.
  - split; reflexivity.
  - split; reflexivity.
  - cbn [JS.truthy_num Spec.pixels]. rewrite !andb_false_r, Z.eqb_refl, !orb_true_r.
    split; reflexivity.
  - rewrite !to_string_of_Z.
    destruct (Z.eqb_spec w 0) as [->|Hw]; [split; reflexivity|].
    destruct (Z.eqb_spec h 0) as [->|Hh]; [split; reflexivity|].
    cbn [negb andb orb].
    rewrite getResolutionLabel_of_Z by assumption. unfold Spec.classify.
    destruct (Z.eqb_spec w 0), (Z.eqb_spec h 0); try contradiction.
    split; reflexivity.
Qed.

Lemma fps_not_unknown (x : string) : x ++ " fps" ≠ unknown.
Proof.
  intros H. assert (String.length x = 2%nat) as Hlen.
  { apply (f_equal String.length) in H. rewrite length_append in H. simpl in H. lia. }
  destruct x as [|a [|b [|c x]]]; discriminate.
Qed.

(** ** The claims on the assembled record *)

(** C1. Analysis ends with the [NoMediaTrack] error (and no record) exactly
    when the probe's track sequence has neither a General nor a Video track.
    A probe with only an Audio track fails in that way; a probe with a
    General track and no Video track succeeds, and the fields that come from
    the Video track alone (resolution, resolution class, frame rate, video
    codec) are the unknown sentinel; the bit rate and its mode are then the
    General track's overall ones, the sentinel when it has none. *)
Theorem analyzeVideo_NoMediaTrack_iff
    (toLocaleString : Z → string) (file : File.t) (result : MediaInfoResult) (st : State) :
  (analyzeVideo toLocaleString file (Returns result) st =
     {| isDragging := isDragging st; metadata := None; isAnalyzing := false;
        error := Some NoMediaTrack |}
   ↔ ¬ Spec.has_track result "General" ∧ ¬ Spec.has_track result "Video")
  ∧ analyzeVideo toLocaleString file
      (Returns (Examples.probe_of [Examples.audio_aac])) st =
     {| isDragging := isDragging st; metadata := None; isAnalyzing := false;
        error := Some NoMediaTrack |}
  ∧ (Spec.has_track result "General" → ¬ Spec.has_track result "Video" →
     ∃ m, analyzeVideo toLocaleString file (Returns result) st =
            {| isDragging := isDragging st; metadata := Some m; isAnalyzing := false;
               error := None |}
          ∧ resolution m = unknown ∧ resolutionLabel m = unknown
          ∧ frameRate m = unknown ∧ videoCodec m = unknown
          ∧ bitRate m =
              (if JS.truthy (field (find_track result "General") "OverallBitRate")
               then mbps (JS.to_str (field (find_track result "General") "OverallBitRate"))
               else unknown)
          ∧ bitRateMode m =
              JS.or_else (field (find_track result "General") "OverallBitRate_Mode")
                         unknown).
Proof.
  split; [|split].
  - split.
    + intros H.
      destruct (find_track result "General") as [g|] eqn:Hg.
      { destruct (analyzeVideo_success toLocaleString file result st) as [m Hm];
          [right; eauto|]. rewrite Hm in H. discriminate. }
      destruct (find_track result "Video") as [v|] eqn:Hv.
      { destruct (analyzeVideo_success toLocaleString file result st) as [m Hm];
          [left; eauto|]. rewrite Hm in H. discriminate. }
      split; apply find_track_None; assumption.
    + intros [Hg Hv]. apply analyzeVideo_no_track; apply find_track_None; assumption.
  - apply analyzeVideo_no_track; reflexivity.
  - intros Hg Hv. apply find_track_is_Some in Hg. apply find_track_None in Hv.
    destruct (analyzeVideo_success toLocaleString file result st) as [m Hm]; [right; exact Hg|].
    exists m. split; [exact Hm|].
    assert (metadata (analyzeVideo toLocaleString file (Returns result) st) = Some m) as Hmeta
      by (rewrite Hm; reflexivity).
    apply analyzeVideo_fields in Hmeta. cbv zeta in Hmeta. rewrite Hv in Hmeta.
    destruct Hmeta as (_ & _ & _ & _ & Hres & Hlab & Hbr & Hbm & Hfr & _ & _ & Hvc & _).
    rewrite Hres, Hlab, Hfr, Hvc, Hbr, Hbm. repeat split; reflexivity.
Qed.

Lemma analyzeVideo_NoMediaTrack_witness :
  ∃ m, analyzeVideo Examples.locale Examples.file
         (Returns (Examples.probe_of [Examples.general_mp4; Examples.audio_aac]))
         Examples.idle =
         {| isDragging := false; metadata := Some m; isAnalyzing := false; error := None |}
       ∧ resolution m = unknown ∧ resolutionLabel m = unknown
       ∧ frameRate m = unknown ∧ videoCodec m = unknown.
Proof.
  destruct (proj2 (proj2 (analyzeVideo_NoMediaTrack_iff Examples.locale Examples.file
              (Examples.probe_of [Examples.general_mp4; Examples.audio_aac]) Examples.idle)))
    as (m & Hm & H1 & H2 & H3 & H4 & _).
  - exists Examples.general_mp4. split; [left; reflexivity|reflexivity].
  - apply find_track_None. reflexivity.
  - exists m. repeat split; assumption.
Defined.

(** C9. The resolution class of the assembled record is decided by the long
    edge [max(width, height)]: 4K from 3840, 2K from 2560, FullHD from 1920,
    HD from 1280, SD below; when the width or the height is zero or cannot
    be parsed (or there is no Video track) the class and the resolution
    string are both the unknown sentinel.  So 3840 x 2160 is "4K",
    1280 x 720 is "HD" and 0 x 0 is unknown. *)
Theorem resolution_classification
    (toLocaleString : Z → string) (file : File.t) (result : MediaInfoResult) (st : State)
    (m : VideoMetadata) :
  metadata (analyzeVideo toLocaleString file (Returns result) st) = Some m →
  let video := find_track result "Video" in
  let width := Spec.pixels (match video with
                            | Some v => JS.parseInt (JS.to_str (v !! "Width"))
                            | None => JS.of_Z 0
                            end) in
  let height := Spec.pixels (match video with
                             | Some v => JS.parseInt (JS.to_str (v !! "Height"))
                             | None => JS.of_Z 0
                             end) in
  resolutionLabel m = Spec.classify width height
  ∧ resolution m = Spec.resolution_string width height
  ∧ getResolutionLabel (JS.of_Z 3840) (JS.of_Z 2160) = "4K"
  ∧ getResolutionLabel (JS.of_Z 1280) (JS.of_Z 720) = "HD"
  ∧ resolutionLabel <$> metadata (analyzeVideo toLocaleString file
        (Returns (Examples.probe_of [Examples.video_4k])) st) = Some "4K"
  ∧ resolutionLabel <$> metadata (analyzeVideo toLocaleString file
        (Returns (Examples.probe_of [Examples.video_hd])) st) = Some "HD"
  ∧ resolutionLabel <$> metadata (analyzeVideo toLocaleString file
        (Returns (Examples.probe_of [Examples.video_zero])) st) = Some unknown
  ∧ resolution <$> metadata (analyzeVideo toLocaleString file
        (Returns (Examples.probe_of [Examples.video_zero])) st) = Some unknown.
Proof.
  intros Hm video width height.
  apply analyzeVideo_fields in Hm. cbv zeta in Hm.
  destruct Hm as (_ & _ & _ & _ & Hres & Hlab & _).
  fold video in Hres, Hlab.
  assert (∀ o : option Track, ∀ f,
            let n := match o with
                     | Some v => JS.parseInt (JS.to_str (v !! f))
                     | None => JS.of_Z 0
                     end in n = JS.NaN ∨ ∃ z, n = JS.of_Z z) as Hcases.
  { intros [v|] f; simpl; [apply parseInt_cases|right; eauto]. }
  destruct (resolution_cases _ _ (Hcases video "Width") (Hcases video "Height")) as [H1 H2].
  rewrite Hlab, Hres. split; [exact H1|]. split; [exact H2|].
  repeat split; reflexivity.
Qed.

Lemma resolution_classification_witness :
  ∃ m, metadata (analyzeVideo Examples.locale Examples.file
                   (Returns (Examples.probe_of [Examples.general_mp4; Examples.video_hd]))
                   Examples.idle) = Some m
       ∧ resolutionLabel m = "HD" ∧ resolution m = "1280 x 720".
Proof.
  eexists. split; [vm_compute; reflexivity|].
  pose proof (resolution_classification Examples.locale Examples.file
                (Examples.probe_of [Examples.general_mp4; Examples.video_hd])
                Examples.idle _ eq_refl) as H.
  cbv zeta in H. destruct H as (H1 & H2 & _). split; [exact H1|exact H2].
Defined.

(** C10. When the selected Video track has neither [FrameRate] nor
    [FrameRate_Nominal], the frame-rate field is the sentinel followed by
    the unit, "不明 fps"; the bare sentinel appears only when the probe has
    no Video track at all. *)
Theorem frameRate_unknown_with_unit
    (toLocaleString : Z → string) (file : File.t) (result : MediaInfoResult) (st : State) :
  (∀ v, find_track result "Video" = Some v →
        v !! "FrameRate" = None → v !! "FrameRate_Nominal" = None →
        ∃ m, metadata (analyzeVideo toLocaleString file (Returns result) st) = Some m
             ∧ frameRate m = "不明 fps")
  ∧ (∀ m, metadata (analyzeVideo toLocaleString file (Returns result) st) = Some m →
          (frameRate m = unknown ↔ ¬ Spec.has_track result "Video")).
Proof.
  split.
  - intros v Hv H1 H2.
    destruct (analyzeVideo_success toLocaleString file result st) as [m Hm].
    { left. rewrite Hv. eauto. }
    exists m.
    assert (metadata (analyzeVideo toLocaleString file (Returns result) st) = Some m) as Hmeta
      by (rewrite Hm; reflexivity).
    split; [exact Hmeta|].
    apply analyzeVideo_fields in Hmeta. cbv zeta in Hmeta.
    destruct Hmeta as (_ & _ & _ & _ & _ & _ & _ & _ & Hfr & _).
    rewrite Hfr, Hv, H1, H2. reflexivity.
  - intros m Hm. apply analyzeVideo_fields in Hm. cbv zeta in Hm.
    destruct Hm as (_ & _ & _ & _ & _ & _ & _ & _ & Hfr & _).
    rewrite Hfr. destruct (find_track result "Video") as [v|] eqn:Hv.
    + split.
      * intros H. exfalso. exact (fps_not_unknown _ H).
      * intros H. exfalso. apply H. apply find_track_is_Some. rewrite Hv. eauto.
    + split; [|reflexivity]. intros _. apply find_track_None. exact Hv.
Qed.

Lemma frameRate_unknown_with_unit_witness :
  ∃ m, metadata (analyzeVideo Examples.locale Examples.file
                   (Returns (Examples.probe_of [Examples.video_no_rate]))
                   Examples.idle) = Some m
       ∧ frameRate m = "不明 fps".
Proof.
  apply (proj1 (frameRate_unknown_with_unit Examples.locale Examples.file
                  (Examples.probe_of [Examples.video_no_rate]) Examples.idle)
               Examples.video_no_rate); reflexivity.
Defined.

(** ** Codec names *)

Lemma prefix_spec (p s : string) : String.prefix p s = true ↔ ∃ rest, s = p ++ rest.
Proof.
  revert s. induction p as [|c p IH]; intros s.
  - split; [intros _; exists s; reflexivity|]. intros _. destruct s; reflexivity.
  - destruct s as [|d s]; simpl.
    + split; [discriminate|]. intros [rest H]. discriminate.
    + destruct (Ascii.ascii_dec c d) as [->|Hne].
      * rewrite IH. split; intros [rest H]; exists rest.
        -- rewrite append_cons, H. reflexivity.
        -- rewrite append_cons in H. injection H as H. exact H.
      * split; [discriminate|]. intros [rest H]. rewrite append_cons in H.
        injection H as H1 H2. congruence.
Qed.

Lemma includes_spec (s sub : string) : JS.includes s sub = true ↔ Spec.substring_of sub s.
Proof.
  unfold Spec.substring_of. induction s as [|c s IH].
  - cbn [JS.includes]. rewrite orb_false_r, prefix_spec. split.
    + intros [rest H]. exists EmptyString, rest. exact H.
    + intros [[|b before] [after H]]; [eauto|discriminate].
  - cbn [JS.includes]. rewrite orb_true_iff, prefix_spec, IH. split.
    + intros [[rest H]|[before [after H]]].
      * exists EmptyString, rest. exact H.
      * exists (String c before), after. rewrite append_cons, H. reflexivity.
    + intros [[|b before] [after H]].
      * left. exists after. exact H.
      * right. rewrite append_cons in H. injection H as _ H. eauto.
Qed.

Lemma includes_false (s sub : string) : JS.includes s sub = false ↔ ¬ Spec.substring_of sub s.
Proof.
  rewrite <- includes_spec. destruct (JS.includes s sub); split; intros H; congruence.
Qed.

Lemma eqb_false_iff (a b : string) : String.eqb a b = false ↔ a ≠ b.
Proof. apply String.eqb_neq. Qed.

Lemma profile_shown_dec (composed profile : string) :
  (JS.truthy (Some profile) && negb (String.eqb profile "Base")
   && negb (String.eqb profile "Main") && negb (JS.includes composed profile)) = true
  ↔ Spec.profile_shown composed profile.
Proof.
  unfold Spec.profile_shown. rewrite !andb_true_iff, !negb_true_iff.
  rewrite !eqb_false_iff, includes_false.
  assert (JS.truthy (Some profile) = true ↔ profile ≠ EmptyString) as ->.
  { destruct profile; simpl; split; congruence. }
  tauto.
Qed.

(** The name the resolver composes, in terms of the specification's table,
    for a track whose format code is present. *)
Lemma getDetailedCodec_composed (t : Track) :
  let format := JS.or_else (t !! "Format") EmptyString in
  let info := JS.or_else (t !! "Format_Information") EmptyString in
  let profile := JS.or_else (t !! "Format_Profile") EmptyString in
  let composed := Spec.display (fst (Spec.canonical_names format info))
                               (snd (Spec.canonical_names format info)) in
  format ≠ EmptyString →
  composed ≠ EmptyString
  ∧ getDetailedCodec (Some t) =
    if JS.truthy (Some profile) && negb (String.eqb profile "Base")
       && negb (String.eqb profile "Main") && negb (JS.includes composed profile)
    then composed ++ " [" ++ profile ++ "]" else composed.
Proof.
  intros format info profile composed Hf.
  unfold getDetailedCodec. fold format info profile.
  clearbody format info profile.
  assert (∀ r : string, r ≠ EmptyString →
            JS.or_else (JS.or (Some r) (t !! "CodecID")) unknown = r) as Hfinal.
  { intros [|c r] H; [contradiction|reflexivity]. }
  unfold composed, Spec.canonical_names, Spec.codec_table, Spec.display.
  cbn [List.find fst snd].
  destruct (String.eqb_spec "AVC" format) as [<-|H1].
  { cbn. destruct (_ && _); (split; [discriminate|reflexivity]). }
  destruct (String.eqb_spec "HEVC" format) as [<-|H2].
  { cbn. destruct (_ && _); (split; [discriminate|reflexivity]). }
  destruct (String.eqb_spec "MPEG-4 Visual" format) as [<-|H3].
  { cbn. destruct (_ && _); (split; [discriminate|reflexivity]). }
  destruct (String.eqb_spec "AAC" format) as [<-|H4].
  { cbn. destruct (_ && _); (split; [discriminate|reflexivity]). }
  assert (∀ a b : string, a ≠ b → String.eqb b a = false) as Hne.
  { intros a b H. apply String.eqb_neq. congruence. }
  rewrite (Hne _ _ H1), (Hne _ _ H2), (Hne _ _ H3), (Hne _ _ H4).
  cbn [fst snd].
  assert (JS.or_str info format = match info with EmptyString => format | _ => info end) as ->
    by (destruct info; reflexivity).
  set (iso := match info with EmptyString => format | _ => info end).
  assert (iso ≠ EmptyString) as Hiso.
  { unfold iso. destruct info; [exact Hf|discriminate]. }
  assert (JS.truthy (Some format) = true) as ->.
  { revert Hf. clear. destruct format; [contradiction|reflexivity]. }
  rewrite (String.eqb_sym format iso). cbn [andb].
  destruct (String.eqb_spec iso format) as [E|E]; cbn [negb].
  - split; [exact Hiso|].
    destruct (_ && _).
    + apply Hfinal. apply append_nonempty_l. exact Hiso.
    + apply Hfinal. exact Hiso.
  - split; [apply append_nonempty_l; exact Hiso|].
    destruct (_ && _); apply Hfinal; repeat apply append_nonempty_l; exact Hiso.
Qed.

(** C5. For a present track with a format code, the name pair is the
    table's for AVC, HEVC, MPEG-4 Visual and AAC; the display string is the
    long name alone when the two names coincide and "Long（Short）" when they
    differ; the profile is appended as " [profile]" exactly when it is
    present, is neither "Base" nor "Main" and does not already occur in the
    composed name.  AVC with profile High gives
    "Advanced Video Coding（H.264） [High]", AVC with profile Main gives
    "Advanced Video Coding（H.264）". *)
Theorem codec_identity (t : Track) (format : string) :
  t !! "Format" = Some format → format ≠ EmptyString →
  let info := JS.or_else (t !! "Format_Information") EmptyString in
  let profile := JS.or_else (t !! "Format_Profile") EmptyString in
  let names := Spec.canonical_names format info in
  let composed := Spec.display (fst names) (snd names) in
  (format = "AVC" → names = ("Advanced Video Coding", "H.264"))
  ∧ (format = "HEVC" → names = ("High Efficiency Video Coding", "H.265"))
  ∧ (format = "MPEG-4 Visual" → names = ("MPEG-4 Part 2", "Visual"))
  ∧ (format = "AAC" → names = ("Advanced Audio Coding", "MPEG-4 AAC"))
  ∧ (fst names = snd names → composed = fst names)
  ∧ (fst names ≠ snd names → composed = fst names ++ "（" ++ snd names ++ "）")
  ∧ (Spec.profile_shown composed profile →
     getDetailedCodec (Some t) = composed ++ " [" ++ profile ++ "]")
  ∧ (¬ Spec.profile_shown composed profile → getDetailedCodec (Some t) = composed)
  ∧ getDetailedCodec (Some Examples.avc_high) = "Advanced Video Coding（H.264） [High]"
  ∧ getDetailedCodec (Some Examples.avc_main) = "Advanced Video Coding（H.264）".
Proof.
  intros Hfmt Hne info profile names composed.
  assert (JS.or_else (t !! "Format") EmptyString = format) as Hformat.
  { rewrite Hfmt. destruct format; [contradiction|reflexivity]. }
  pose proof (getDetailedCodec_composed t) as H. cbv zeta in H.
  rewrite Hformat in H. specialize (H Hne). destruct H as [_ H].
  fold info profile names composed in H.
  split; [intros ->; reflexivity|]. split; [intros ->; reflexivity|].
  split; [intros ->; reflexivity|]. split; [intros ->; reflexivity|].
  split.
  { intros E. unfold composed, Spec.display. rewrite E, String.eqb_refl. reflexivity. }
  split.
  { intros E. unfold composed, Spec.display. apply String.eqb_neq in E. rewrite E.
    reflexivity. }
  split.
  { intros Hp. apply profile_shown_dec in Hp. rewrite Hp in H. exact H. }
  split.
  { intros Hp. destruct (_ && _) eqn:E in H; [|exact H].
    exfalso. apply Hp. apply profile_shown_dec. exact E. }
  split; reflexivity.
Qed.

Lemma codec_identity_witness :
  getDetailedCodec (Some Examples.avc_high) =
    Spec.display "Advanced Video Coding" "H.264" ++ " [" ++ "High" ++ "]".
Proof.
  pose proof (codec_identity Examples.avc_high "AVC" eq_refl) as H.
  cbv zeta in H. assert ("AVC" ≠ EmptyString) as Hne by discriminate.
  specialize (H Hne). destruct H as (_ & _ & _ & _ & _ & _ & H & _).
  apply H. apply profile_shown_dec. reflexivity.
Defined.

(** C6 as stated fails: a format code outside the table, without format
    information, is itself the name; the codec identifier is not returned. *)
Lemma codec_fallback_counterexample :
  ¬ (∀ t : Track,
       ¬ Spec.in_table (JS.or_else (t !! "Format") EmptyString) →
       t !! "Format_Information" = None →
       getDetailedCodec (Some t) = JS.or_else (t !! "CodecID") unknown).
Proof.
  intros H. specialize (H Examples.vp9).
  assert (getDetailedCodec (Some Examples.vp9) = "VP9") as E by reflexivity.
  rewrite E in H.
  assert ("VP9" = "V_VP9") as Habs; [|discriminate].
  apply H; [|reflexivity].
  cbn. intros [?|[?|[?|[?|[]]]]]; discriminate.
Qed.

(** C6, amended. For a track whose format code is outside the table, which
    has no format information and whose profile is absent, "Base" or
    "Main", the resolver returns the format code when there is one; only
    when the format code is absent too does it return the codec identifier,
    and the unknown sentinel when that is absent as well. *)
Theorem codec_fallback (t : Track) :
  let format := JS.or_else (t !! "Format") EmptyString in
  let info := JS.or_else (t !! "Format_Information") EmptyString in
  let profile := JS.or_else (t !! "Format_Profile") EmptyString in
  ¬ Spec.in_table format → info = EmptyString →
  profile = EmptyString ∨ profile = "Base" ∨ profile = "Main" →
  getDetailedCodec (Some t) =
    match format with
    | EmptyString => JS.or_else (t !! "CodecID") unknown
    | _ => format
    end.
Proof.
  intros format info profile Htab Hinfo Hprof.
  assert (∀ c, In c ["AVC"; "HEVC"; "MPEG-4 Visual"; "AAC"] → String.eqb format c = false)
    as Hout.
  { intros c Hc. apply String.eqb_neq. intros ->. apply Htab. exact Hc. }
  unfold getDetailedCodec. fold format info profile.
  rewrite !Hout by (simpl; tauto). rewrite Hinfo. cbn [JS.or_str].
  rewrite String.eqb_refl, andb_false_r.
  assert ((JS.truthy (Some profile) && negb (String.eqb profile "Base")
           && negb (String.eqb profile "Main") && negb (JS.includes format profile)) = false)
    as ->.
  { destruct Hprof as [->|[->| ->]]; reflexivity. }
  destruct format; reflexivity.
Qed.

Lemma codec_fallback_witness :
  getDetailedCodec (Some Examples.codec_id_only) = "V_VP9".
Proof.
  apply (codec_fallback Examples.codec_id_only).
  - cbn. intros [?|[?|[?|[?|[]]]]]; discriminate.
  - reflexivity.
  - left. reflexivity.
Defined.

(** ** Durations *)

Lemma div_of_Z a p :
  JS.div (JS.of_Z a) (JS.of_Z (Zpos p)) = JS.Real (inject_Z a / inject_Z (Zpos p)).
Proof. reflexivity. Qed.

Lemma Qfloor_div_pos a p : Qfloor (inject_Z a / inject_Z (Zpos p)) = (a / Zpos p)%Z.
Proof.
  unfold Qdiv, Qmult, Qinv, Qfloor. simpl. rewrite Z.mul_1_r. reflexivity.
Qed.

Lemma floor_div_of_Z a p :
  JS.floor (JS.div (JS.of_Z a) (JS.of_Z (Zpos p))) = JS.of_Z (a / Zpos p).
Proof. rewrite div_of_Z. unfold JS.floor, JS.of_Z. rewrite Qfloor_div_pos. reflexivity. Qed.

Lemma rem_of_Z a p :
  (0 <= a)%Z → JS.rem (JS.of_Z a) (JS.of_Z (Zpos p)) = JS.of_Z (a mod Zpos p).
Proof.
  intros Ha. unfold JS.rem, JS.of_Z.
  change (Qeq_bool (inject_Z (Zpos p)) 0) with false. cbv iota.
  unfold JS.Qtrunc.
  assert (Qle_bool 0 (inject_Z a / inject_Z (Zpos p)) = true) as ->.
  { unfold Qle_bool, Qdiv, Qmult, Qinv. simpl. apply Z.leb_le. lia. }
  rewrite Qfloor_div_pos.
  unfold Qminus, Qplus, Qopp, Qmult, inject_Z. simpl.
  f_equal. f_equal. rewrite (Z.mod_eq a (Zpos p)) by lia. lia.
Qed.

Lemma minutes_of_Z T :
  (0 <= T)%Z →
  JS.floor (JS.rem (JS.div (JS.of_Z T) (JS.of_Z 60)) (JS.of_Z 60)) = JS.of_Z (T / 60 mod 60).
Proof.
  intros HT. rewrite div_of_Z. unfold JS.rem, JS.of_Z.
  change (Qeq_bool (inject_Z 60) 0) with false. cbv iota.
  unfold JS.Qtrunc.
  assert (Qle_bool 0 (inject_Z T / inject_Z 60 / inject_Z 60) = true) as ->.
  { unfold Qle_bool, Qdiv, Qmult, Qinv. simpl. apply Z.leb_le. lia. }
  unfold JS.floor. f_equal. f_equal.
  unfold Qfloor, Qminus, Qplus, Qopp, Qdiv, Qmult, Qinv, inject_Z. simpl.
  rewrite !Z.mul_1_r.
  change (Z.pos (1 * 60 * 60)) with 3600%Z. change (Z.pos (1 * 60)) with 60%Z.
  change (Z.pos (1 * 60 * (1 * 1))) with 60%Z.
  Z.div_mod_to_equations. lia.
Qed.

Lemma gt_of_Z a b : JS.gt (JS.of_Z a) (JS.of_Z b) = (b <? a)%Z.
Proof. unfold JS.gt. apply lt_of_Z. Qed.

Lemma strict_eq_of_Z a b : JS.strict_eq (JS.of_Z a) (JS.of_Z b) = (a =? b)%Z.
Proof. apply Qeq_bool_inject. Qed.

(** Below 100, padding with one zero gives exactly two digits. *)
Lemma pad_two_digits n :
  (0 <= n < 100)%Z →
  (if (n <? 10)%Z then "0" ++ Spec.dec n else Spec.dec n) = Spec.two_digits n.
Proof.
  intros Hn. assert (∃ k, n = Z.of_nat k ∧ (k < 100)%nat) as [k [-> Hk]].
  { exists (Z.to_nat n). lia. }
  clear Hn. do 100 (destruct k as [|k]; [vm_compute; reflexivity|]). lia.
Qed.

(** The formatting steps of [formatDuration] from a whole number of
    seconds on. *)
Lemma format_seconds T :
  (0 <= T)%Z →
  let totalSeconds := JS.of_Z T in
  let seconds := JS.rem totalSeconds (JS.of_Z 60) in
  let minutes := JS.floor (JS.rem (JS.div totalSeconds (JS.of_Z 60)) (JS.of_Z 60)) in
  let hours := JS.floor (JS.div totalSeconds (JS.of_Z 3600)) in
  let h := if JS.gt hours (JS.of_Z 0) then JS.to_string hours ++ ":" else EmptyString in
  let m :=
    if JS.gt hours (JS.of_Z 0) then
      (if JS.lt minutes (JS.of_Z 10) then "0" ++ JS.to_string minutes ++ ":"
       else JS.to_string minutes ++ ":")
    else JS.to_string minutes ++ ":" in
  let s :=
    if JS.lt seconds (JS.of_Z 10) then "0" ++ JS.to_string seconds
    else JS.to_string seconds in
  h ++ m ++ s = Spec.hms T.
Proof.
  intros HT. cbv zeta.
  rewrite rem_of_Z by exact HT. rewrite minutes_of_Z by exact HT.
  rewrite floor_div_of_Z. rewrite !gt_of_Z, !lt_of_Z, !to_string_of_Z.
  unfold Spec.hms.
  assert (0 <= T / 60 mod 60 < 100)%Z as HM by (Z.div_mod_to_equations; lia).
  assert (0 <= T mod 60 < 100)%Z as HS by (Z.div_mod_to_equations; lia).
  rewrite (pad_two_digits _ HS).
  destruct (0 <? T / 3600)%Z.
  - rewrite <- (pad_two_digits _ HM).
    destruct (T / 60 mod 60 <? 10)%Z; rewrite ?append_assoc; reflexivity.
  - change (EmptyString ++ ?x) with x. rewrite append_assoc. reflexivity.
Qed.
Lemma Qle_bool_false_lt q : (0 < q)%Q → Qle_bool q 0 = false.
Proof.
  intros H. destruct (Qle_bool q 0) eqn:E; [|reflexivity].
  apply Qle_bool_iff in E. exfalso. exact (Qlt_not_le _ _ H E).
Qed.

Lemma total_seconds_nonneg q : (0 < q)%Q → (0 <= Spec.total_seconds q)%Z.
Proof.
  intros H. unfold Spec.total_seconds.
  assert (0 <= Qfloor q)%Z as H1.
  { change 0%Z with (Qfloor 0). apply Qfloor_resp_le. apply Qlt_le_weak. exact H. }
  assert (0 <= Qfloor (q / 1000))%Z as H2.
  { change 0%Z with (Qfloor 0). apply Qfloor_resp_le. apply Qle_shift_div_l; [reflexivity|].
    rewrite Qmult_0_l. apply Qlt_le_weak. exact H. }
  destruct (_ =? _)%Z; assumption.
Qed.

Lemma truthy_value_positive value q :
  JS.parseFloat_value value = JS.Real q → (0 < q)%Q → JS.truthy_value value = true.
Proof.
  intros Hv Hq. destruct value as [s|n]; simpl in *.
  - destruct s; [discriminate|reflexivity].
  - subst n. simpl. apply negb_true_iff. destruct (Qeq_bool q 0) eqn:E; [|reflexivity].
    apply Qeq_bool_iff in E. rewrite E in Hq. exfalso. exact (Qlt_irrefl _ Hq).
Qed.

Lemma N_to_string_head n :
  ∃ c r, JS.N_to_string n = String c r ∧ JS.is_digit c = true.
Proof.
  unfold JS.N_to_string, N.to_uint. destruct n as [|p].
  - eexists _, _. split; reflexivity.
  - pose proof (Unsigned.to_uint_nonnil p) as Hnil.
    destruct (Pos.to_uint p); [contradiction|..]; eexists _, _; split; reflexivity.
Qed.

Lemma N_to_string_nonempty n : JS.N_to_string n ≠ EmptyString.
Proof. destruct (N_to_string_head n) as (c & r & -> & _). discriminate. Qed.

(** A finite positive raw value is read as milliseconds, or as seconds
    when that floors to zero, and formatted. *)
Lemma formatDuration_positive value ds3 q :
  (JS.truthy ds3 && JS.includes (JS.to_str ds3) ":") = false →
  JS.parseFloat_value value = JS.Real q → (0 < q)%Q →
  formatDuration value ds3 = Spec.hms (Spec.total_seconds q).
Proof.
  intros Hds Hv Hq. unfold formatDuration. rewrite Hds.
  rewrite (truthy_value_positive _ _ Hv Hq). cbn [negb]. rewrite Hv.
  cbn [JS.isNaN orb]. unfold JS.le at 1. unfold JS.of_Z at 1.
  change (inject_Z 0) with 0%Q. rewrite (Qle_bool_false_lt _ Hq).
  assert (JS.floor (JS.div (JS.Real q) (JS.of_Z 1000)) = JS.of_Z (Qfloor (q / 1000))) as ->
    by reflexivity.
  rewrite strict_eq_of_Z.
  assert (JS.gt (JS.Real q) (JS.of_Z 0) = true) as ->.
  { unfold JS.gt, JS.lt, JS.of_Z. change (inject_Z 0) with 0%Q.
    rewrite (Qle_bool_false_lt _ Hq). reflexivity. }
  rewrite andb_true_r.
  assert ((if (Qfloor (q / 1000) =? 0)%Z then JS.floor (JS.Real q)
           else JS.of_Z (Qfloor (q / 1000))) = JS.of_Z (Spec.total_seconds q)) as ->.
  { unfold Spec.total_seconds. destruct (_ =? _)%Z; reflexivity. }
  apply (format_seconds _ (total_seconds_nonneg _ Hq)).
Qed.

Lemma formatDuration_unusable value ds3 :
  (JS.truthy ds3 && JS.includes (JS.to_str ds3) ":") = false →
  JS.truthy_value value = false
  ∨ JS.parseFloat_value value = JS.NaN
  ∨ JS.parseFloat_value value = JS.NegInfinity
  ∨ (∃ q, JS.parseFloat_value value = JS.Real q ∧ (q <= 0)%Q) →
  formatDuration value ds3 = unknown.
Proof.
  intros Hds H. unfold formatDuration. rewrite Hds.
  destruct (JS.truthy_value value); [|reflexivity]. cbn [negb].
  destruct H as [H|[H|[H|[q [H Hq]]]]]; [discriminate| | |]; rewrite H; try reflexivity.
  cbn [JS.isNaN orb]. unfold JS.le, JS.of_Z. change (inject_Z 0) with 0%Q.
  apply Qle_bool_iff in Hq. rewrite Hq. reflexivity.
Qed.

(** An infinite value passes the guard [isNaN(num) || num <= 0]. *)
Lemma formatDuration_Infinity value ds3 :
  (JS.truthy ds3 && JS.includes (JS.to_str ds3) ":") = false →
  JS.parseFloat_value value = JS.Infinity →
  formatDuration value ds3 = "Infinity:NaN:NaN".
Proof.
  intros Hds Hv. unfold formatDuration. rewrite Hds.
  assert (JS.truthy_value value = true) as ->.
  { destruct value as [s|k]; simpl in *; [|subst k; reflexivity].
    destruct s; [discriminate|reflexivity]. }
  rewrite Hv. reflexivity.
Qed.

(** A formatted duration starts with a digit or a sign. *)
Lemma hms_head t :
  ∃ c r, Spec.hms t = String c r ∧ (JS.is_digit c = true ∨ c = "-"%char).
Proof.
  assert (∀ z rest, ∃ c r, Spec.dec z ++ rest = String c r
                           ∧ (JS.is_digit c = true ∨ c = "-"%char)) as Hdec.
  { intros z rest. unfold Spec.dec. destruct (z <? 0)%Z.
    - rewrite append_cons. eauto.
    - destruct (N_to_string_head (Z.to_N z)) as (c & r & -> & Hc).
      rewrite append_cons. eauto. }
  unfold Spec.hms. cbv zeta. destruct (0 <? t / 3600)%Z; apply Hdec.
Qed.




(** ** The source of the duration *)

Lemma split_nonempty sep s : JS.split sep s ≠ [].
Proof.
  destruct s as [|c r]; simpl; [discriminate|].
  destruct (Ascii.eqb c sep); [discriminate|]. destruct (JS.split sep r); discriminate.
Qed.

Lemma no_dot_cons c p :
  c ≠ "."%char → ¬ Spec.substring_of "." p → ¬ Spec.substring_of "." (String c p).
Proof.
  intros Hc Hp [[|b before] [after H]].
  - injection H as H _. contradiction.
  - rewrite append_cons in H. injection H as _ H. apply Hp. exists before, after. exact H.
Qed.

(** [s.split('.')[0]] is [s] truncated at its first ['.']. *)
Lemma split_hd_truncated s : Spec.truncated_at_dot s (hd EmptyString (JS.split "." s)).
Proof.
  unfold Spec.truncated_at_dot. induction s as [|c r IH].
  - simpl. split; [|left; reflexivity].
    intros [[|b before] [after H]]; discriminate.
  - cbn [JS.split]. destruct (Ascii.eqb_spec c ".") as [->|Hc].
    + simpl. split.
      * intros [[|b before] [after H]]; discriminate.
      * right. exists r. reflexivity.
    + destruct (JS.split "." r) as [|p ps] eqn:E; [exfalso; exact (split_nonempty _ _ E)|].
      simpl in *. destruct IH as [Hp Hr]. split; [apply no_dot_cons; assumption|].
      destruct Hr as [->|[rest ->]]; [left; reflexivity|right; exists rest; reflexivity].
Qed.

Lemma formatDuration_preformatted (value : JS.value) (s : string) :
  Spec.substring_of ":" s →
  formatDuration value (Some s) = hd EmptyString (JS.split "." s).
Proof.
  intros H. unfold formatDuration. cbn [JS.to_str].
  assert (JS.includes s ":" = true) as -> by (apply includes_spec; exact H).
  assert (JS.truthy (Some s) = true) as ->; [|reflexivity].
  destruct s; [|reflexivity]. destruct H as [[|b before] [after H]]; discriminate.
Qed.

Lemma formatDuration_no_colon (ds3 : option string) :
  (∀ s, ds3 = Some s → ¬ Spec.substring_of ":" s) →
  (JS.truthy ds3 && JS.includes (JS.to_str ds3) ":") = false.
Proof.
  intros H. destruct ds3 as [s|]; [|reflexivity]. cbn [JS.to_str].
  apply andb_false_iff. right. apply includes_false. apply H. reflexivity.
Qed.

Lemma formatDuration_raw (value : JS.value) (ds3 : option string) :
  (JS.truthy ds3 && JS.includes (JS.to_str ds3) ":") = false →
  formatDuration value ds3 = formatDuration value None.
Proof. intros H. unfold formatDuration. rewrite H. reflexivity. Qed.

(** [<=] on numbers other than [NaN]. *)
Lemma le_refl a : JS.isNaN a = false → JS.le a a = true.
Proof.
  destruct a as [| | |q]; try reflexivity; [discriminate|].
  intros _. apply Qle_bool_iff. apply Qle_refl.
Qed.

Lemma le_trans a b c : JS.le a b = true → JS.le b c = true → JS.le a c = true.
Proof.
  destruct a as [| | |x], b as [| | |y], c as [| | |z]; simpl; try congruence.
  rewrite !Qle_bool_iff. apply Qle_trans.
Qed.

Lemma max2_spec a b :
  JS.isNaN a = false → JS.isNaN b = false →
  (JS.max2 a b = a ∨ JS.max2 a b = b)
  ∧ JS.le a (JS.max2 a b) = true ∧ JS.le b (JS.max2 a b) = true
  ∧ JS.isNaN (JS.max2 a b) = false.
Proof.
  destruct a as [| | |x], b as [| | |y]; simpl; try discriminate; intros _ _;
    try (repeat split; auto; fail).
  - repeat split; auto. apply Qle_bool_iff, Qle_refl.
  - repeat split; auto. apply Qle_bool_iff, Qle_refl.
  - destruct (Qle_bool y x) eqn:E; simpl.
    + repeat split; auto. apply Qle_bool_iff, Qle_refl.
    + repeat split; auto; [|apply Qle_bool_iff, Qle_refl].
      apply Qle_bool_iff. apply Qlt_le_weak. apply Qnot_le_lt. intros H.
      apply Qle_bool_iff in H. congruence.
Qed.

Lemma fold_max2_spec l acc :
  JS.isNaN acc = false → (∀ d, In d l → JS.isNaN d = false) →
  let r := fold_left JS.max2 l acc in
  (r = acc ∨ In r l) ∧ JS.le acc r = true ∧ (∀ d, In d l → JS.le d r = true).
Proof.
  revert acc. induction l as [|x l IH]; intros acc Hacc Hl; simpl.
  - split; [left; reflexivity|]. split; [apply le_refl; exact Hacc|]. intros d [].
  - destruct (max2_spec acc x Hacc (Hl x (or_introl eq_refl))) as (Hsel & Ha & Hx & Hn).
    destruct (IH (JS.max2 acc x) Hn (λ d Hd, Hl d (or_intror Hd))) as (Hr & Hle & Hall).
    split.
    + destruct Hr as [Hr|Hr]; [|right; right; exact Hr].
      rewrite Hr. destruct Hsel as [->| ->]; [left; reflexivity|right; left; reflexivity].
    + split; [eapply le_trans; eassumption|].
      intros d [<-|Hd]; [eapply le_trans; eassumption|apply Hall; exact Hd].
Qed.

Lemma positive_durations_spec ts d :
  In d (Spec.positive_durations ts) → JS.isNaN d = false ∧ JS.gt d (JS.of_Z 0) = true.
Proof.
  unfold Spec.positive_durations. intros H. apply filter_In in H as [_ H].
  apply andb_true_iff in H as [H1 H2]. apply negb_true_iff in H1. split; assumption.
Qed.

(** [Math.max] of the positive durations is one of them and bounds them. *)
Lemma max_positive_durations ts :
  Spec.positive_durations ts ≠ [] →
  In (JS.max (Spec.positive_durations ts)) (Spec.positive_durations ts)
  ∧ ∀ d, In d (Spec.positive_durations ts) →
         JS.le d (JS.max (Spec.positive_durations ts)) = true.
Proof.
  intros Hne. unfold JS.max.
  destruct (fold_max2_spec (Spec.positive_durations ts) JS.NegInfinity eq_refl
              (λ d Hd, proj1 (positive_durations_spec ts d Hd))) as (Hr & _ & Hall).
  split; [|exact Hall]. destruct Hr as [Hr|Hr]; [|exact Hr]. exfalso.
  destruct (Spec.positive_durations ts) as [|d l] eqn:E; [contradiction|].
  assert (In d (Spec.positive_durations ts)) as Hd by (rewrite E; left; reflexivity).
  apply positive_durations_spec in Hd as [_ Hpos].
  specialize (Hall d (or_introl eq_refl)). rewrite Hr in Hall.
  destruct d; simpl in *; discriminate.
Qed.



(** ** Sizes: the unit index *)

Lemma floor_log_from_spec fuel k x :
  (2 <= k)%Z → (1 <= x)%Z → (x < 2 ^ Z.of_nat fuel)%Z →
  let i := JS.floor_log_from fuel k x in
  (0 <= i)%Z ∧ (k ^ i <= x < k ^ (i + 1))%Z.
Proof.
  intros Hk. revert x. induction fuel as [|fuel IH]; intros x Hx Hfuel.
  - simpl in Hfuel. lia.
  - cbn [JS.floor_log_from]. destruct (Z.ltb_spec x k) as [Hlt|Hge].
    + cbv zeta. rewrite Z.pow_0_r, Z.pow_1_r. lia.
    + assert (1 <= x / k)%Z as H1 by (apply Z.div_le_lower_bound; lia).
      assert (x / k < 2 ^ Z.of_nat fuel)%Z as H2.
      { apply Z.div_lt_upper_bound; [lia|].
        rewrite Nat2Z.inj_succ, Z.pow_succ_r in Hfuel by lia.
        assert (0 < 2 ^ Z.of_nat fuel)%Z by (apply Z.pow_pos_nonneg; lia). nia. }
      specialize (IH (x / k)%Z H1 H2). cbv zeta in IH. destruct IH as [Hi [Hlo Hhi]].
      cbv zeta. set (j := JS.floor_log_from fuel k (x / k)) in *.
      split; [lia|].
      replace (1 + j + 1)%Z with (Z.succ (j + 1)) by lia.
      replace (1 + j)%Z with (Z.succ j) by lia.
      rewrite !Z.pow_succ_r by lia.
      pose proof (Z.div_mod x k ltac:(lia)) as Hdm.
      pose proof (Z.mod_pos_bound x k ltac:(lia)) as Hmb.
      split; nia.
Qed.

Lemma floor_log_spec k x :
  (2 <= k)%Z → (1 <= x)%Z →
  (0 <= JS.floor_log k x)%Z ∧ (k ^ JS.floor_log k x <= x < k ^ (JS.floor_log k x + 1))%Z.
Proof.
  intros Hk Hx. unfold JS.floor_log. apply floor_log_from_spec; try assumption.
  rewrite Nat2Z.inj_succ, Z2Nat.id by apply Z.log2_nonneg.
  apply Z.log2_spec. lia.
Qed.

(** ** Sizes: printing and reading back a number with two decimals *)

Lemma scan_digits_print (d : Decimal.uint) (rest : string) :
  JS.scan_digits rest = (Decimal.Nil, rest) →
  JS.scan_digits (NilEmpty.string_of_uint d ++ rest) = (d, rest).
Proof.
  intros Hrest. induction d as [|d IH|d IH|d IH|d IH|d IH|d IH|d IH|d IH|d IH|d IH];
    [exact Hrest|..];
    cbn [NilEmpty.string_of_uint]; rewrite append_cons; cbn [JS.scan_digits];
    rewrite IH; reflexivity.
Qed.

Lemma digit_not_space c r : JS.is_digit c = true → JS.trimStart (String c r) = String c r.
Proof.
  intros Hc. unfold JS.is_digit in Hc. apply andb_true_iff in Hc as [H1 H2].
  apply N.leb_le in H1, H2.
  assert (JS.ws1 c = false) as Hw1.
  { unfold JS.ws1. apply orb_false_iff. split.
    - apply andb_false_iff. right. apply N.leb_gt. lia.
    - apply N.eqb_neq. lia. }
  assert (∀ n, (57 < n)%N → (JS.code c =? n)%N = false) as Hne.
  { intros n Hn. apply N.eqb_neq. lia. }
  cbn [JS.trimStart]. rewrite Hw1. destruct r as [|c2 [|c3 r]]; try reflexivity.
  - unfold JS.ws2. rewrite Hne by lia. reflexivity.
  - unfold JS.ws2, JS.ws3. rewrite !Hne by lia. reflexivity.
Qed.

Lemma digit_not_sign c r : JS.is_digit c = true → JS.read_sign (String c r) = (false, String c r).
Proof.
  intros Hc. unfold JS.read_sign.
  destruct (Ascii.eqb_spec c "-") as [->|_]; [discriminate|].
  destruct (Ascii.eqb_spec c "+") as [->|_]; [discriminate|]. reflexivity.
Qed.

Lemma digit_not_Infinity c r : JS.is_digit c = true → String.prefix "Infinity" (String c r) = false.
Proof.
  intros Hc. destruct (String.prefix "Infinity" (String c r)) eqn:E; [|reflexivity].
  apply prefix_spec in E as [rest E]. rewrite append_cons in E. injection E as -> _.
  discriminate.
Qed.

(** Reading back an integer followed by a fractional part. *)
Lemma parseFloat_decimal (ip : N) (tail : string) :
  JS.parseFloat (JS.N_to_string ip ++ String "." tail) =
  JS.Real (JS.decimal_value (N.to_uint ip) (fst (JS.scan_digits tail))
           * JS.pow10 (JS.read_exponent (snd (JS.scan_digits tail)))).
Proof.
  destruct (N_to_string_head ip) as (c & r & Hs & Hc).
  unfold JS.parseFloat. rewrite Hs, append_cons.
  rewrite (digit_not_space _ _ Hc), (digit_not_sign _ _ Hc), (digit_not_Infinity _ _ Hc).
  rewrite <- append_cons, <- Hs. unfold JS.N_to_string.
  rewrite scan_digits_print by reflexivity.
  cbn [Ascii.eqb Bool.eqb]. destruct (JS.scan_digits tail) as [fp s3]. cbn [fst snd JS.signed].
  assert (N.to_uint ip ≠ Decimal.Nil) as Hnil.
  { intros E. apply (f_equal NilEmpty.string_of_uint) in E.
    fold (JS.N_to_string ip) in E. rewrite Hs in E. discriminate. }
  destruct (N.to_uint ip); [contradiction|reflexivity..].
Qed.

Lemma fixed_digits_2_mod n : JS.fixed_digits 2 n = JS.fixed_digits 2 (n mod 100).
Proof.
  cbn [JS.fixed_digits]. rewrite !append_nil_l.
  replace ((n mod 100) / 10 mod 10)%Z with (n / 10 mod 10)%Z by (Z.div_mod_to_equations; lia).
  replace ((n mod 100) mod 10)%Z with (n mod 10)%Z by (Z.div_mod_to_equations; lia).
  reflexivity.
Qed.

(** The two digits [toFixed] writes are read back as hundredths. *)
Lemma read_hundredths (ip : Decimal.uint) (f : Z) :
  (0 <= f < 100)%Z →
  (JS.decimal_value ip (fst (JS.scan_digits (JS.fixed_digits 2 f)))
   * JS.pow10 (JS.read_exponent (snd (JS.scan_digits (JS.fixed_digits 2 f)))))%Q
  = ((inject_Z (Z.of_N (N.of_uint ip)) + (f # 100)) * 1)%Q.
Proof. intros Hf. below_100 f. Qed.

(** The digits after the point that [String(x)] writes for hundredths. *)
Lemma print_hundredths (f : Z) :
  (0 <= f < 100)%Z →
  (if (f =? 0)%Z then EmptyString else String "." (JS.frac_digits 7 f 100)) =
  (if (f =? 0)%Z then EmptyString
   else if (f mod 10 =? 0)%Z then String "." (String (JS.digit_char (f / 10)) EmptyString)
   else String "." (String (JS.digit_char (f / 10))
                      (String (JS.digit_char (f mod 10)) EmptyString))).
Proof. intros Hf. below_100 f. Qed.

Lemma to_string_hundredths (ip : N) (f : Z) :
  (0 <= f < 100)%Z →
  JS.to_string (JS.Real ((inject_Z (Z.of_N ip) + (f # 100)) * 1)) =
  JS.N_to_string ip
  ++ (if (f =? 0)%Z then EmptyString else String "." (JS.frac_digits 7 f 100)).
Proof.
  intros Hf. unfold JS.to_string, JS.Q_to_string.
  assert (Qnum ((inject_Z (Z.of_N ip) + (f # 100)) * 1) = (Z.of_N ip * 100 + f * 1) * 1)%Z
    as Hnum by reflexivity.
  assert (Qden ((inject_Z (Z.of_N ip) + (f # 100)) * 1) = 100%positive) as Hden by reflexivity.
  assert (Qle_bool 0 ((inject_Z (Z.of_N ip) + (f # 100)) * 1) = true) as ->.
  { unfold Qle_bool. rewrite Hnum, Hden. apply Z.leb_le. simpl. lia. }
  rewrite Hnum, Hden.
  replace (((Z.of_N ip * 100 + f * 1) * 1) / 100)%Z with (Z.of_N ip)
    by (Z.div_mod_to_equations; lia).
  replace (((Z.of_N ip * 100 + f * 1) * 1) mod 100)%Z with f
    by (Z.div_mod_to_equations; lia).
  rewrite N2Z.id. reflexivity.
Qed.

(** [String(parseFloat(s))] for the string [toFixed(2)] writes for [n]
    hundredths is the shortest decimal notation of [n / 100]. *)
Lemma shortest_of_fixed (n : Z) :
  (0 <= n)%Z →
  JS.to_string (JS.parseFloat (JS.N_to_string (Z.to_N (n / 100))
                               ++ String "." (JS.fixed_digits 2 n))) =
  Spec.shortest_decimal n.
Proof.
  intros Hn. rewrite parseFloat_decimal, fixed_digits_2_mod.
  assert (0 <= n mod 100 < 100)%Z as Hf by (apply Z.mod_pos_bound; lia).
  rewrite (read_hundredths _ _ Hf), DecimalN.Unsigned.of_to.
  rewrite (to_string_hundredths _ _ Hf), (print_hundredths _ Hf).
  unfold Spec.shortest_decimal, Spec.dec.
  assert (0 <= n / 100)%Z as Hip by (apply Z.div_pos; lia).
  destruct (Z.ltb_spec (n / 100) 0); [lia|].
  replace ((n mod 100) mod 10)%Z with (n mod 10)%Z by (Z.div_mod_to_equations; lia).
  reflexivity.
Qed.

(** ** Sizes: [formatBytes] *)

(** The scaled value [bytes / k^i] as a fraction. *)
Lemma scaled_value (b i : Z) :
  (0 <= i)%Z →
  ∃ x, JS.div (JS.of_Z b) (JS.pow 1024 i) = JS.Real x
       ∧ x == inject_Z b / inject_Z (1024 ^ i).
Proof.
  intros Hi. unfold JS.div, JS.of_Z, JS.pow.
  assert (inject_Z 1024 ^ i == inject_Z (1024 ^ i)) as Hpow
    by (symmetry; apply Zpower_Qpower; exact Hi).
  assert (0 < 1024 ^ i)%Z as Hpos by (apply Z.pow_pos_nonneg; lia).
  assert (Qeq_bool (inject_Z 1024 ^ i) 0 = false) as ->.
  { destruct (Qeq_bool _ 0) eqn:E; [|reflexivity]. apply Qeq_bool_iff in E.
    rewrite Hpow in E. unfold Qeq in E. simpl in E. lia. }
  eexists. split; [reflexivity|]. rewrite Hpow. reflexivity.
Qed.

(** [toFixed(2)] of a fraction [b / p] with [0 <= b < 1024 p]. *)
Lemma toFixed_2_fraction (x : Q) (b p : Z) :
  (0 < p)%Z → (0 <= b < 1024 * p)%Z → x == inject_Z b / inject_Z p →
  let n := ((200 * b + p) / (2 * p))%Z in
  JS.toFixed 2 (JS.Real x) =
  JS.N_to_string (Z.to_N (n / 100)) ++ String "." (JS.fixed_digits 2 n).
Proof.
  intros Hp Hb Hx n.
  assert (inject_Z b / inject_Z p == b # Z.to_pos p) as Hfrac.
  { unfold Qeq, Qdiv, Qmult, Qinv, inject_Z. destruct p; try lia. simpl. lia. }
  rewrite Hfrac in Hx.
  assert (0 <= x)%Q as Hx0.
  { rewrite Hx. unfold Qle. simpl. lia. }
  unfold JS.toFixed.
  assert (Qle_bool (inject_Z (10 ^ 21)) (Qabs x) = false) as ->.
  { destruct (Qle_bool _ _) eqn:E; [|reflexivity]. exfalso.
    apply Qle_bool_iff in E. rewrite (Qabs_pos _ Hx0), Hx in E.
    unfold Qle in E. simpl in E. rewrite Z2Pos.id in E by lia. lia. }
  assert (Qle_bool 0 x = true) as -> by (apply Qle_bool_iff; exact Hx0).
  assert (Qfloor (Qabs x * inject_Z (10 ^ Z.of_nat 2) + (1 # 2)) = n) as ->; [|reflexivity].
  rewrite (Qfloor_comp _ ((b # Z.to_pos p) * inject_Z 100 + (1 # 2))).
  - unfold Qfloor, Qplus, Qmult, inject_Z. simpl.
    rewrite Pos2Z.inj_mul, Z2Pos.id by lia. unfold n.
    rewrite <- (Z.div_mul_cancel_r (200 * b + p) (2 * p) 1) by lia. f_equal; lia.
  - rewrite (Qabs_pos _ Hx0), Hx. reflexivity.
Qed.

(** What [formatSize] shows for a positive byte count. *)
Lemma formatSize_positive (bytes : N) :
  (0 < bytes)%N →
  ∃ i n : Z,
    (0 <= i)%Z
    ∧ (1024 ^ i <= Z.of_N bytes < 1024 ^ (i + 1))%Z
    ∧ ((2 * n - 1) * 1024 ^ i <= 200 * Z.of_N bytes < (2 * n + 1) * 1024 ^ i)%Z
    ∧ formatSize bytes =
        Spec.shortest_decimal n ++ " " ++ JS.to_str (sizes !! Z.to_nat i).
Proof.
  intros Hpos. set (b := Z.of_N bytes).
  destruct (floor_log_spec 1024 b) as (Hi & Hlo & Hhi); [lia|lia|].
  set (i := JS.floor_log 1024 b) in *.
  assert (0 < 1024 ^ i)%Z as Hp by (apply Z.pow_pos_nonneg; lia).
  exists i, ((200 * b + 1024 ^ i) / (2 * 1024 ^ i))%Z.
  set (n := ((200 * b + 1024 ^ i) / (2 * 1024 ^ i))%Z).
  split; [exact Hi|]. split; [split; assumption|].
  split.
  { pose proof (Z.div_mod (200 * b + 1024 ^ i) (2 * 1024 ^ i) ltac:(lia)) as Hdm.
    pose proof (Z.mod_pos_bound (200 * b + 1024 ^ i) (2 * 1024 ^ i) ltac:(lia)) as Hmb.
    fold n in Hdm. split; nia. }
  unfold formatSize, formatBytes.
  destruct (N.eqb_spec bytes 0) as [->|_]; [lia|].
  cbv zeta. change (if (2 <? 0)%Z then 0%Z else 2%Z) with 2%Z.
  change (Z.to_nat 2) with 2%nat. fold b. fold i.
  destruct (scaled_value b i Hi) as (x & -> & Hx).
  assert (b < 1024 * 1024 ^ i)%Z as Hhi'.
  { rewrite <- Z.pow_succ_r by exact Hi. exact Hhi. }
  rewrite (toFixed_2_fraction x b (1024 ^ i) Hp ltac:(lia) Hx). cbv zeta. fold n.
  assert (0 <= n)%Z as Hn by (apply Z.div_pos; lia).
  rewrite (shortest_of_fixed n Hn). reflexivity.
Qed.

(** C7 (the program has no clamp). From 1024^5 bytes on the unit index is
    past the last entry of [sizes], and the unit shown is "undefined":
    one and a half pebibytes are shown as "1.5 undefined". *)
Theorem formatSize_beyond_TB (bytes : N) :
  formatSize Examples.petabytes = "1.5 undefined"
  ∧ ((1024 ^ 5 <= bytes)%N →
     ∃ shown, formatSize bytes = shown ++ " undefined").
Proof.
  split; [vm_compute; reflexivity|]. intros Hbig.
  destruct (formatSize_positive bytes) as (i & n & Hi & [Hlo Hhi] & _ & ->); [lia|].
  exists (Spec.shortest_decimal n).
  assert (5 <= i)%Z as Hi5.
  { destruct (Z.le_gt_cases 5 i) as [H|H]; [exact H|]. exfalso.
    assert (1024 ^ (i + 1) <= 1024 ^ 5)%Z by (apply Z.pow_le_mono_r; lia).
    assert (Z.of_N (1024 ^ 5) <= Z.of_N bytes)%Z by lia.
    change (Z.of_N (1024 ^ 5)) with (1024 ^ 5)%Z in *. lia. }
  assert (sizes !! Z.to_nat i = None) as ->; [|reflexivity].
  apply lookup_ge_None_2. simpl. lia.
Qed.

Lemma formatSize_beyond_TB_witness :
  ∃ shown, formatSize (2 ^ 50) = shown ++ " undefined".
Proof.
  apply (proj2 (formatSize_beyond_TB (2 ^ 50))). vm_compute. discriminate.
Defined.

(** ** No field is empty *)

Lemma to_string_nonempty x : JS.to_string x ≠ EmptyString.
Proof.
  destruct x as [| | |q]; try discriminate. unfold JS.to_string.
  destruct (Qle_bool 0 q); [|discriminate].
  unfold JS.Q_to_string. apply append_nonempty_l. apply N_to_string_nonempty.
Qed.

Lemma toFixed_nonempty f x : JS.toFixed f x ≠ EmptyString.
Proof.
  destruct x as [| | |q]; try discriminate. unfold JS.toFixed.
  destruct (Qle_bool (inject_Z (10 ^ 21)) (Qabs q)); [apply to_string_nonempty|].
  destruct (Qle_bool 0 q); [|discriminate].
  apply append_nonempty_l. apply N_to_string_nonempty.
Qed.

Lemma or_else_nonempty a b : b ≠ EmptyString → JS.or_else a b ≠ EmptyString.
Proof. intros Hb. destruct a as [[|c r]|]; simpl; [exact Hb|discriminate|exact Hb]. Qed.

Lemma unknown_nonempty : unknown ≠ EmptyString.
Proof. discriminate. Qed.

Lemma formatSize_nonempty bytes : formatSize bytes ≠ EmptyString.
Proof.
  unfold formatSize, formatBytes. destruct (bytes =? 0)%N; [discriminate|].
  cbv zeta. apply append_nonempty_r. discriminate.
Qed.

Lemma getResolutionLabel_nonempty w h : getResolutionLabel w h ≠ EmptyString.
Proof.
  unfold getResolutionLabel. cbv zeta.
  repeat (destruct (JS.ge _ _); [discriminate|]). discriminate.
Qed.

Lemma getDetailedCodec_nonempty t : getDetailedCodec t ≠ EmptyString.
Proof.
  destruct t as [t|]; [|discriminate]. unfold getDetailedCodec. cbv zeta.
  destruct (String.eqb _ "AVC");
    [|destruct (String.eqb _ "HEVC"); [|destruct (String.eqb _ "MPEG-4 Visual")]];
    destruct (String.eqb _ "AAC"); apply or_else_nonempty; discriminate.
Qed.

Lemma mbps_nonempty bits : mbps bits ≠ EmptyString.
Proof. unfold mbps. apply append_nonempty_r. discriminate. Qed.

Lemma split_hd_nonempty c r :
  c ≠ "."%char → hd EmptyString (JS.split "." (String c r)) ≠ EmptyString.
Proof.
  intros Hc. cbn [JS.split]. destruct (Ascii.eqb_spec c "."); [contradiction|].
  destruct (JS.split "." r); discriminate.
Qed.

(** The duration is empty only through a preformatted string that starts
    with the separator. *)
Lemma formatDuration_nonempty value ds3 :
  (∀ s, ds3 = Some s → Spec.substring_of ":" s → ∀ rest, s ≠ String "." rest) →
  formatDuration value ds3 ≠ EmptyString.
Proof.
  intros Hds. unfold formatDuration.
  destruct (JS.truthy ds3 && JS.includes (JS.to_str ds3) ":") eqn:E.
  - apply andb_true_iff in E as [Ht Hi]. destruct ds3 as [[|c r]|]; try discriminate.
    cbn [JS.to_str] in *. apply split_hd_nonempty. intros ->.
    apply (Hds _ eq_refl (proj1 (includes_spec _ _) Hi) r). reflexivity.
  - destruct (negb (JS.truthy_value value)); [discriminate|].
    destruct (_ || _); [discriminate|]. cbv zeta.
    apply append_nonempty_r. apply append_nonempty_r.
    destruct (JS.lt _ _); [discriminate|apply to_string_nonempty].
Qed.

(** C2 as stated fails: a preformatted duration that starts with '.' and
    contains ':' leaves the duration field empty. *)
Lemma all_fields_populated_counterexample :
  ∃ m, metadata (analyzeVideo Examples.locale Examples.file
                   (Returns (Examples.probe_of [Examples.general_dot]))
                   Examples.idle) = Some m
       ∧ duration m = EmptyString.
Proof. eexists. split; [vm_compute; reflexivity|reflexivity]. Qed.

(** C2, amended. When assembly succeeds, the file name and the formatted
    date are not empty, and the preformatted duration string, if it
    contains ':', does not start with '.', then every field of the record is
    a non-empty string. *)
Theorem all_fields_populated
    (toLocaleString : Z → string) (file : File.t) (result : MediaInfoResult) (st : State)
    (m : VideoMetadata) :
  metadata (analyzeVideo toLocaleString file (Returns result) st) = Some m →
  File.name file ≠ EmptyString →
  toLocaleString (File.lastModified file) ≠ EmptyString →
  (∀ s, Spec.preformatted (find_track result "General") (find_track result "Video")
                          (find_track result "Audio") = Some s →
        Spec.substring_of ":" s → ∀ rest, s ≠ String "." rest) →
  name m ≠ EmptyString ∧ updatedDate m ≠ EmptyString ∧ size m ≠ EmptyString
  ∧ resolution m ≠ EmptyString ∧ resolutionLabel m ≠ EmptyString
  ∧ bitRate m ≠ EmptyString ∧ bitRateMode m ≠ EmptyString
  ∧ frameRate m ≠ EmptyString ∧ duration m ≠ EmptyString
  ∧ container m ≠ EmptyString ∧ videoCodec m ≠ EmptyString
  ∧ audioCodec m ≠ EmptyString.
Proof.
  intros Hm Hname Hdate Hds.
  apply analyzeVideo_fields in Hm. cbv zeta in Hm.
  destruct Hm as (_ & H1 & H2 & H3 & H4 & H5 & H6 & H7 & H8 & H9 & H10 & H11 & H12).
  rewrite H1, H2, H3, H4, H5, H6, H7, H8, H9, H10, H11, H12.
  split; [exact Hname|]. split; [exact Hdate|]. split; [apply formatSize_nonempty|].
  split.
  { destruct (_ && _); [|apply unknown_nonempty]. apply append_nonempty_l.
    apply to_string_nonempty. }
  split.
  { destruct (_ && _); [apply getResolutionLabel_nonempty|apply unknown_nonempty]. }
  split.
  { destruct (JS.truthy _); [apply mbps_nonempty|].
    destruct (JS.truthy _); [apply mbps_nonempty|apply unknown_nonempty]. }
  split; [apply or_else_nonempty, unknown_nonempty|].
  split.
  { destruct (find_track result "Video"); [|apply unknown_nonempty].
    apply append_nonempty_r. discriminate. }
  split; [apply formatDuration_nonempty; exact Hds|].
  split; [apply or_else_nonempty, unknown_nonempty|].
  split; apply getDetailedCodec_nonempty.
Qed.

Lemma all_fields_populated_witness :
  ∃ m, metadata (analyzeVideo Examples.locale Examples.file
                   (Returns (Examples.probe_of
                      [Examples.general_preformatted; Examples.video_hd; Examples.audio_aac]))
                   Examples.idle) = Some m
       ∧ name m ≠ EmptyString ∧ updatedDate m ≠ EmptyString ∧ size m ≠ EmptyString
       ∧ resolution m ≠ EmptyString ∧ resolutionLabel m ≠ EmptyString
       ∧ bitRate m ≠ EmptyString ∧ bitRateMode m ≠ EmptyString
       ∧ frameRate m ≠ EmptyString ∧ duration m ≠ EmptyString
       ∧ container m ≠ EmptyString ∧ videoCodec m ≠ EmptyString
       ∧ audioCodec m ≠ EmptyString.
Proof.
  eexists. split; [vm_compute; reflexivity|].
  apply (all_fields_populated Examples.locale Examples.file
           (Examples.probe_of
              [Examples.general_preformatted; Examples.video_hd; Examples.audio_aac])
           Examples.idle _ eq_refl).
  - discriminate.
  - discriminate.
  - intros s Hs _ rest. vm_compute in Hs. injection Hs as <-. discriminate.
Defined.

(** * Further properties of the program *)

(** ** The state an analysis leaves *)

(** The state an analysis leaves, for either answer of the probing engine. *)
Lemma analyzeVideo_outcome
    (toLocaleString : Z → string) (file : File.t) (probe : Probe) (st : State) :
  let st' := analyzeVideo toLocaleString file probe st in
  isAnalyzing st' = false ∧ isDragging st' = isDragging st
  ∧ match probe with
    | Throws message =>
        metadata st' = None ∧ error st' = Some (ProbeFailure message)
    | Returns result =>
        (∃ m, metadata st' = Some m ∧ error st' = None)
        ∨ (metadata st' = None ∧ error st' = Some NoMediaTrack)
    end.
Proof.
  destruct probe as [message|result]; cbv zeta.
  - repeat split.
  - destruct (find_track result "Video") as [v|] eqn:Hv.
    { destruct (analyzeVideo_success toLocaleString file result st) as [m ->];
        [left; eauto|]. repeat split. left. eauto. }
    destruct (find_track result "General") as [g|] eqn:Hg.
    { destruct (analyzeVideo_success toLocaleString file result st) as [m ->];
        [right; eauto|]. repeat split. left. eauto. }
    rewrite (analyzeVideo_no_track toLocaleString file result st Hv Hg).
    repeat split. right. split; reflexivity.
Qed.

(** X1. Whatever the state before, an analysis ends with the analysing flag
    down and the dragging flag untouched, and with exactly one of record and
    error set: when the probing engine throws, the error is the [catch]
    message around the engine's message; when it returns, either a record
    and no error, or no record and the [NoMediaTrack] message.  In
    particular the [try] block raises no error of its own. *)
Theorem analysis_outcome
    (toLocaleString : Z → string) (file : File.t) (probe : Probe) (st : State) :
  let st' := analyzeVideo toLocaleString file probe st in
  isAnalyzing st' = false ∧ isDragging st' = isDragging st
  ∧ match probe with
    | Throws message =>
        metadata st' = None ∧ error st' = Some (ProbeFailure message)
    | Returns result =>
        (∃ m, metadata st' = Some m ∧ error st' = None)
        ∨ (metadata st' = None ∧ error st' = Some NoMediaTrack)
    end.
Proof. apply analyzeVideo_outcome. Qed.

(** The state after an analysis, from the state after the same analysis
    started in another state. *)
Lemma analyzeVideo_from (toLocaleString : Z → string) file probe st st0 :
  analyzeVideo toLocaleString file probe st =
  {| isDragging := isDragging st;
     metadata := metadata (analyzeVideo toLocaleString file probe st0);
     isAnalyzing := false;
     error := error (analyzeVideo toLocaleString file probe st0) |}.
Proof.
  destruct probe as [message|result]; [reflexivity|].
  destruct (find_track result "Video") as [v|] eqn:Hv;
    [|destruct (find_track result "General") as [g|] eqn:Hg].
  3:{ rewrite !(analyzeVideo_no_track toLocaleString file result) by assumption.
      reflexivity. }
  all: unfold analyzeVideo, try_block; rewrite Hv, ?Hg; cbn [bool_decide orb];
    match goal with
    | |- context [bool_decide ?P] =>
        assert (bool_decide P = true) as -> by (apply bool_decide_eq_true; eauto)
    end; cbn [orb];
    destruct (JS.or _ (field (find_track result "Audio") "Duration")) as [[|c r]|];
    destruct (media result); reflexivity.
Qed.

(** X2. An analysis fully replaces what was displayed: its record and error
    do not depend on the record, error or analysing flag of the state it
    starts from, and running the same analysis twice gives the state of
    running it once. *)
Theorem analysis_replaces_state
    (toLocaleString : Z → string) (file : File.t) (probe : Probe) (st st0 : State) :
  isDragging st = isDragging st0 →
  analyzeVideo toLocaleString file probe st = analyzeVideo toLocaleString file probe st0
  ∧ analyzeVideo toLocaleString file probe (analyzeVideo toLocaleString file probe st)
    = analyzeVideo toLocaleString file probe st.
Proof.
  intros Hd. split.
  - rewrite (analyzeVideo_from _ _ _ st st0), (analyzeVideo_from _ _ _ st0 st0), Hd.
    reflexivity.
  - rewrite (analyzeVideo_from _ _ _ (analyzeVideo _ _ _ st) st).
    rewrite (analyzeVideo_from _ _ _ st st) at 1. cbn [isDragging].
    rewrite (analyzeVideo_from _ _ _ st st) at 3. reflexivity.
Qed.

Lemma analysis_replaces_state_witness :
  analyzeVideo Examples.locale Examples.file
    (Returns (Examples.probe_of [Examples.general_mp4]))
    (analyzeVideo Examples.locale Examples.file (Throws "read error") Examples.idle)
  = analyzeVideo Examples.locale Examples.file
      (Returns (Examples.probe_of [Examples.general_mp4])) Examples.idle.
Proof.
  apply (proj1 (analysis_replaces_state Examples.locale Examples.file
                  (Returns (Examples.probe_of [Examples.general_mp4]))
                  (analyzeVideo Examples.locale Examples.file (Throws "read error")
                     Examples.idle)
                  Examples.idle eq_refl)).
Defined.

(** ** The component under any sequence of events *)

Section Component.

Variable toLocaleString : Z → string.

(** An analysis is its start followed by its end. *)
Lemma analyzeVideo_split file probe st :
  analyzeVideo toLocaleString file probe st
  = analyzeVideo_finish toLocaleString file probe (analyzeVideo_start st).
Proof. reflexivity. Qed.

(** Once the probing engine has returned, the [try] block sets the record,
    the same whatever the state, or the [NoMediaTrack] message. *)
Lemma try_block_Returns file result :
  (∃ m, ∀ st, try_block toLocaleString file (Returns result) st
              = Normal (setMetadata (Some m) st))
  ∨ (∀ st, try_block toLocaleString file (Returns result) st
           = Normal (setError (Some NoMediaTrack) st)).
Proof.
  destruct (find_track result "Video") as [v|] eqn:Hv;
    [|destruct (find_track result "General") as [g|] eqn:Hg].
  3:{ right. intros st. apply try_block_no_track; assumption. }
  all: left;
    assert (∃ md, media result = Some md) as [md Hmd]
      by (eapply find_track_media; eauto);
    unfold try_block; rewrite Hv, ?Hg; cbn [bool_decide orb];
    match goal with
    | |- context [bool_decide ?P] =>
        assert (bool_decide P = true) as -> by (apply bool_decide_eq_true; eauto)
    end; cbn [orb]; rewrite Hmd; cbn [fmap option_fmap option_map];
    destruct (JS.or _ (field (find_track result "Audio") "Duration")) as [[|c r]|];
    eexists; intros st; reflexivity.
Qed.

(** What the end of an analysis changes: the busy flag goes down, and either
    the record is set to the record of the analysed file, or the error to
    one of the two messages; the other of the two is left as it is. *)
Lemma analyzeVideo_finish_outcome file probe st :
  let st' := analyzeVideo_finish toLocaleString file probe st in
  isAnalyzing st' = false ∧ isDragging st' = isDragging st
  ∧ ((∃ m, metadata st' = Some m ∧ error st' = error st
           ∧ ∃ result, probe = Returns result
               ∧ metadata (analyzeVideo toLocaleString file probe initial) = Some m)
     ∨ (metadata st' = metadata st
        ∧ ∃ e, error st' = Some e
               ∧ (e = NoMediaTrack ∨ ∃ message, e = ProbeFailure message))).
Proof.
  cbv zeta. unfold analyzeVideo_finish. destruct probe as [message|result].
  - cbn [try_block]. repeat split. right. split; [reflexivity|].
    eexists. split; [reflexivity|]. right. eauto.
  - destruct (try_block_Returns file result) as [[m H]|H].
    + rewrite (H st). repeat split. left. exists m. repeat split.
      exists result. split; [reflexivity|].
      unfold analyzeVideo. rewrite H. reflexivity.
    + rewrite (H st). repeat split. right. split; [reflexivity|].
      eexists. split; [reflexivity|]. left. reflexivity.
Qed.

Lemma genuine_finish file probe st :
  Spec.genuine toLocaleString st →
  Spec.genuine toLocaleString (analyzeVideo_finish toLocaleString file probe st).
Proof.
  intros [Hm He].
  destruct (analyzeVideo_finish_outcome file probe st)
    as (_ & _ & [(m & Hm' & He' & result & -> & Hrec)|(Hm' & e & He' & Hmsg)]).
  - split.
    + intros m0. rewrite Hm'. intros [= <-]. eauto.
    + intros e. rewrite He'. apply He.
  - split.
    + intros m0. rewrite Hm'. apply Hm.
    + intros e0. rewrite He'. intros [= <-]. exact Hmsg.
Qed.

Lemma genuine_start st : Spec.genuine toLocaleString (analyzeVideo_start st).
Proof. split; intros x; discriminate. Qed.

Lemma genuine_step c s :
  Spec.genuine toLocaleString (state c) →
  Spec.genuine toLocaleString (state (step toLocaleString c s)).
Proof.
  intros H. destruct s as [[| |files probe|files probe]|k]; cbn [step].
  - exact H.
  - exact H.
  - destruct (files !! 0%nat); [apply genuine_start|exact H].
  - destruct (files ≫= _); [apply genuine_start|exact H].
  - destruct (pending c !! k) as [[file probe]|]; [apply genuine_finish|]; exact H.
Qed.

(** With nothing pending, the busy flag is down. *)
Lemma idle_step c s :
  (pending c = [] → isAnalyzing (state c) = false) →
  pending (step toLocaleString c s) = [] →
  isAnalyzing (state (step toLocaleString c s)) = false.
Proof.
  intros H. destruct s as [[| |files probe|files probe]|k]; cbn [step].
  - exact H.
  - exact H.
  - destruct (files !! 0%nat); cbn [launch pending state]; [|exact H].
    intros Hp. destruct (pending c); discriminate.
  - destruct (files ≫= _); cbn [launch pending state]; [|exact H].
    intros Hp. destruct (pending c); discriminate.
  - destruct (pending c !! k) as [[file probe]|]; [|exact H].
    intros _. apply analyzeVideo_finish_outcome.
Qed.

Lemma interleave_snoc steps s :
  interleave toLocaleString (steps ++ [s])
  = step toLocaleString (interleave toLocaleString steps) s.
Proof. unfold interleave. rewrite fold_left_app. reflexivity. Qed.

Lemma interleave_invariant steps :
  let c := interleave toLocaleString steps in
  (pending c = [] → isAnalyzing (state c) = false)
  ∧ Spec.genuine toLocaleString (state c).
Proof.
  induction steps as [|s steps IH] using rev_ind.
  - split; [reflexivity|]. split; intros x; discriminate.
  - cbv zeta in *. rewrite interleave_snoc. destruct IH as [IH1 IH2].
    split; [apply idle_step; exact IH1|apply genuine_step; exact IH2].
Qed.

(** As long as analyses do not overlap, a record and an error are not
    shown together, and neither is shown while an analysis runs. *)
Lemma serial_invariant steps :
  (∀ n, List.length (pending (interleave toLocaleString (take n steps))) ≤ 1)%nat →
  let c := interleave toLocaleString steps in
  (metadata (state c) = None ∨ error (state c) = None)
  ∧ (pending c ≠ [] → metadata (state c) = None ∧ error (state c) = None).
Proof.
  induction steps as [|s steps IH] using rev_ind; intros Hone.
  - split; [left; reflexivity|]. intros H. contradiction.
  - assert (∀ n, List.length (pending (interleave toLocaleString (take n steps))) ≤ 1)%nat as Hpre.
    { intros n. destruct (Nat.le_gt_cases n (List.length steps)) as [Hn|Hn].
      - rewrite <- (take_app_le steps [s] n Hn). apply Hone.
      - rewrite (take_ge steps n) by lia.
        specialize (Hone (List.length steps)). rewrite take_app_length in Hone.
        exact Hone. }
    specialize (IH Hpre). cbv zeta in IH. destruct IH as [IH1 IH2].
    pose proof (Hone (List.length (steps ++ [s]))) as Hlast.
    rewrite take_ge in Hlast by lia.
    cbv zeta. revert Hlast. rewrite interleave_snoc.
    set (c := interleave toLocaleString steps) in *.
    destruct s as [[| |files probe|files probe]|k]; cbn [step]; intros Hlast.
    + split; assumption.
    + split; assumption.
    + destruct (files !! 0%nat); cbn [launch pending state] in *;
        [|split; assumption].
      split; [left; reflexivity|]. intros _. split; reflexivity.
    + destruct (files ≫= _); cbn [launch pending state] in *; [|split; assumption].
      split; [left; reflexivity|]. intros _. split; reflexivity.
    + destruct (pending c !! k) as [[file probe]|] eqn:Hk; [|split; assumption].
      cbn [pending state] in *.
      assert (pending c ≠ []) as Hne by (intros E; rewrite E in Hk; discriminate).
      destruct (IH2 Hne) as [Hm He].
      pose proof (Hpre (List.length steps)) as H1. rewrite take_ge in H1 by lia.
      fold c in H1.
      assert (delete k (pending c) = []) as Hnil.
      { destruct (pending c) as [|x [|y l]]; [contradiction| |simpl in H1; lia].
        destruct k; [reflexivity|discriminate Hk]. }
      split; [|intros H; contradiction].
      destruct (analyzeVideo_finish_outcome file probe (state c))
        as (_ & _ & [(m & _ & He' & _)|(Hm' & _)]).
      * right. rewrite He'. exact He.
      * left. rewrite Hm'. exact Hm.
Qed.

(** [run] is the interleaving in which every analysis ends before the
    next event. *)
Lemma serial_fold events c :
  pending c = [] →
  fold_left (step toLocaleString) (serial events) c
  = {| state := fold_left (handle toLocaleString) events (state c); pending := [] |}.
Proof.
  revert c. induction events as [|e events IH]; intros [st p] Hp; cbn [pending] in Hp;
    subst p; [reflexivity|].
  change (serial (e :: events)) with (Fire e :: Settle 0 :: serial events).
  cbn [fold_left]. rewrite IH.
  - f_equal. destruct e as [| |files probe|files probe]; cbn [step handle state pending];
      try reflexivity.
    + unfold onDrop. destruct (files !! 0%nat); reflexivity.
    + unfold onChange. destruct (files ≫= _); reflexivity.
  - destruct e as [| |files probe|files probe]; cbn [step state pending]; try reflexivity.
    + destruct (files !! 0%nat); reflexivity.
    + destruct (files ≫= _); reflexivity.
Qed.

Lemma run_serial events :
  interleave toLocaleString (serial events)
  = {| state := run toLocaleString events; pending := [] |}.
Proof. apply (serial_fold events {| state := initial; pending := [] |}). reflexivity. Qed.

End Component.



(** X22. Two analyses that overlap are merged: when a second file is
    dropped before the probing engine has answered for the first, and the
    first gives a record while the second fails, the busy flag goes down
    with the first answer although the second analysis is still running,
    and in the end the record of the first file is shown together with the
    error of the second. *)
Theorem overlap_merges_outcomes
    (toLocaleString : Z → string) (before : list Step) (file1 file2 : File.t)
    (result1 : MediaInfoResult) (message : string) (m : VideoMetadata) :
  pending (interleave toLocaleString before) = [] →
  metadata (analyzeVideo toLocaleString file1 (Returns result1) initial) = Some m →
  let steps :=
    (before ++ [Fire (Drop [file1] (Returns result1));
                Fire (Drop [file2] (Throws message)); Settle 0])%list in
  let c := interleave toLocaleString steps in
  let c' := interleave toLocaleString (steps ++ [Settle 0])%list in
  (pending c = [(file2, Throws message)] ∧ isAnalyzing (state c) = false
   ∧ metadata (state c) = Some m ∧ error (state c) = None)
  ∧ (pending c' = [] ∧ isAnalyzing (state c') = false
     ∧ metadata (state c') = Some m ∧ error (state c') = Some (ProbeFailure message)).
Proof.
  intros Hp Hm. cbv zeta.
  assert (∀ st, try_block toLocaleString file1 (Returns result1) st
                = Normal (setMetadata (Some m) st)) as Htry.
  { destruct (try_block_Returns toLocaleString file1 result1) as [[m' H]|H].
    - unfold analyzeVideo in Hm. rewrite H in Hm. injection Hm as <-. exact H.
    - unfold analyzeVideo in Hm. rewrite H in Hm. discriminate. }
  unfold interleave in *. rewrite !fold_left_app.
  destruct (fold_left (step toLocaleString) before _) as [st p]. cbn [pending] in Hp.
  subst p. cbn [fold_left step launch lookup list_lookup state pending app delete
                list_delete].
  unfold analyzeVideo_finish. rewrite Htry. cbn [try_block]. repeat split.
Qed.

Lemma overlap_merges_outcomes_witness :
  let c' := interleave Examples.locale
              [Fire (Drop [Examples.file] (Returns (Examples.probe_of [Examples.general_mp4])));
               Fire (Drop [Examples.file] (Throws "read error")); Settle 0; Settle 0] in
  ∃ m, metadata (state c') = Some m ∧ error (state c') = Some (ProbeFailure "read error").
Proof.
  eexists.
  apply (proj2 (overlap_merges_outcomes Examples.locale [] Examples.file Examples.file
                  (Examples.probe_of [Examples.general_mp4]) "read error" _
                  eq_refl eq_refl)).
Defined.
(** X4. What is shown after a file was dropped depends on nothing that
    happened before: after any sequence of events, dropping files leaves
    exactly the state that analysing the first of them leaves from the
    initial state.  A file chosen through the input is analysed in the same
    way, but the dragging highlight stays as it was; a drop without a file
    only clears the highlight. *)
Theorem drop_forgets_history
    (toLocaleString : Z → string) (events : list Event) (file : File.t)
    (rest : list File.t) (probe : Probe) :
  run toLocaleString (events ++ [Drop (file :: rest) probe])
    = analyzeVideo toLocaleString file probe initial
  ∧ run toLocaleString (events ++ [Change (Some (file :: rest)) probe])
    = {| isDragging := isDragging (run toLocaleString events);
         metadata := metadata (analyzeVideo toLocaleString file probe initial);
         isAnalyzing := false;
         error := error (analyzeVideo toLocaleString file probe initial) |}
  ∧ run toLocaleString (events ++ [Drop [] probe])
    = {| isDragging := false;
         metadata := metadata (run toLocaleString events);
         isAnalyzing := isAnalyzing (run toLocaleString events);
         error := error (run toLocaleString events) |}.
Proof.
  unfold run. rewrite !fold_left_app. cbn [fold_left handle].
  set (st := fold_left (handle toLocaleString) events initial).
  split; [|split].
  - unfold onDrop. cbn [lookup list_lookup].
    rewrite (analyzeVideo_from toLocaleString file probe (setIsDragging false st) initial).
    symmetry. apply (analyzeVideo_from toLocaleString file probe initial initial).
  - unfold onChange. cbn [mbind option_bind lookup list_lookup].
    apply analyzeVideo_from.
  - reflexivity.
Qed.

(** ** The rows shown for a record *)

(** X5. For every record an analysis produces, the rows carry at most two
    badges: the resolution row always has one, the resolution class (the
    sentinel "不明" included), and the bit rate row has one, the bit rate
    mode, exactly when that mode is not the sentinel. *)
Theorem badges_of_record
    (toLocaleString : Z → string) (file : File.t) (result : MediaInfoResult) (st : State)
    (m : VideoMetadata) :
  metadata (analyzeVideo toLocaleString file (Returns result) st) = Some m →
  List.map badge_span (metadataItems (Some m)) =
  [ None; None; None; None;
    Some ("badge badge-blue", resolutionLabel m);
    (if String.eqb (bitRateMode m) unknown then None
     else Some ("badge badge-purple", bitRateMode m));
    None; None; None; None ].
Proof.
  intros Hm. apply analyzeVideo_fields in Hm. cbv zeta in Hm.
  destruct Hm as (_ & _ & _ & _ & _ & Hlab & _ & Hmode & _).
  assert (resolutionLabel m ≠ EmptyString) as Hl.
  { rewrite Hlab. destruct (_ && _); [apply getResolutionLabel_nonempty|discriminate]. }
  assert (bitRateMode m ≠ EmptyString) as Hb.
  { rewrite Hmode. apply or_else_nonempty. discriminate. }
  unfold metadataItems, badge_span. cbn [List.map Item.badge Item.badgeColor JS.truthy].
  change "不明" with unknown.
  destruct (resolutionLabel m) as [|c1 r1]; [contradiction|].
  destruct (String.eqb (bitRateMode m) unknown); [reflexivity|].
  destruct (bitRateMode m) as [|c2 r2]; [contradiction|]. reflexivity.
Qed.

Lemma badges_of_record_witness :
  ∃ m, metadata (analyzeVideo Examples.locale Examples.file
                   (Returns (Examples.probe_of [Examples.general_mp4]))
                   Examples.idle) = Some m
       ∧ List.map badge_span (metadataItems (Some m)) =
         [ None; None; None; None; Some ("badge badge-blue", unknown); None;
           None; None; None; None ].
Proof.
  eexists. split; [vm_compute; reflexivity|].
  apply (badges_of_record Examples.locale Examples.file
           (Examples.probe_of [Examples.general_mp4]) Examples.idle _ eq_refl).
Defined.

(** ** Which track and which field is used *)

Lemma find_first (A : Type) (f : A → bool) (l : list A) (x : A) :
  List.find f l = Some x ↔
  ∃ before after, l = (before ++ x :: after)%list ∧ f x = true
                  ∧ ∀ y, In y before → f y = false.
Proof.
  induction l as [|a l IH]; simpl.
  - split; [discriminate|]. intros ([|b before] & after & H & _); discriminate.
  - destruct (f a) eqn:Ha; split.
    + intros [= <-]. exists [], l. repeat split; [exact Ha|]. intros y [].
    + intros ([|b before] & after & H & Hx & Hb).
      * injection H as -> _. reflexivity.
      * injection H as -> _. rewrite (Hb b (or_introl eq_refl)) in Ha. discriminate.
    + intros H. apply IH in H as (before & after & -> & Hx & Hb).
      exists (a :: before), after. repeat split; [exact Hx|].
      intros y [<-|Hy]; [exact Ha|apply Hb; exact Hy].
    + intros ([|b before] & after & H & Hx & Hb).
      * injection H as -> _. congruence.
      * injection H as -> ->. apply IH. exists before, after.
        repeat split; [exact Hx|]. intros y Hy. apply Hb. right. exact Hy.
Qed.

(** X6. Of several tracks of one type only the first is used: the track
    selected for a type is the one of that type before which no track of
    the type occurs in the probe's sequence. *)
Theorem first_track_of_type (result : MediaInfoResult) (ty : string) (t : Track) :
  find_track result ty = Some t ↔
  ∃ before after,
    Spec.tracks_of result = (before ++ t :: after)%list
    ∧ t !! "@type" = Some ty
    ∧ ∀ u, In u before → u !! "@type" ≠ Some ty.
Proof.
  unfold find_track, Spec.tracks_of. destruct (media result) as [md|]; simpl.
  - rewrite find_first. unfold has_type.
    split; intros (before & after & H & Ht & Hb); exists before, after.
    + repeat split; [exact H|apply bool_decide_eq_true in Ht; exact Ht|].
      intros u Hu. apply Hb in Hu. apply bool_decide_eq_false in Hu. exact Hu.
    + repeat split; [exact H|apply bool_decide_eq_true; exact Ht|].
      intros u Hu. apply bool_decide_eq_false. apply Hb. exact Hu.
  - split; [discriminate|]. intros ([|b before] & after & H & _); discriminate.
Qed.

Lemma first_present_left (s : string) (b c : option string) :
  s ≠ EmptyString → Spec.first_present (Some s) b c = Some s.
Proof. destruct s; [contradiction|reflexivity]. Qed.

(** X7. A value of the General track that is present but unusable is not
    skipped.  When its [Duration] is a non-empty string that does not parse
    and no preformatted string with ':' is selected, the duration is the
    sentinel, whatever durations the other tracks carry; and when its
    [Duration_String3] is a non-empty string without ':', the preformatted
    strings of the Video and Audio tracks are not looked at. *)
Theorem general_value_not_skipped
    (toLocaleString : Z → string) (file : File.t) (result : MediaInfoResult) (st : State)
    (m : VideoMetadata) :
  metadata (analyzeVideo toLocaleString file (Returns result) st) = Some m →
  let general := find_track result "General" in
  let video := find_track result "Video" in
  let audio := find_track result "Audio" in
  (∀ s, field general "Duration" = Some s → s ≠ EmptyString →
        JS.parseFloat s = JS.NaN →
        (∀ p, Spec.preformatted general video audio = Some p →
              ¬ Spec.substring_of ":" p) →
        duration m = unknown)
  ∧ (∀ p, field general "Duration_String3" = Some p → p ≠ EmptyString →
          ¬ Spec.substring_of ":" p →
          duration m =
            formatDuration (Spec.raw_duration general video audio (Spec.tracks_of result))
                           None).
Proof.
  intros Hm general video audio.
  apply analyzeVideo_fields in Hm. cbv zeta in Hm.
  destruct Hm as (_ & _ & _ & _ & _ & _ & _ & _ & _ & Hd & _).
  fold general video audio in Hd. split.
  - intros s Hs Hne Hnan Hpre. rewrite Hd.
    rewrite formatDuration_raw by (apply formatDuration_no_colon; exact Hpre).
    unfold Spec.raw_duration. rewrite Hs, (first_present_left _ _ _ Hne).
    destruct s as [|c r]; [contradiction|].
    apply formatDuration_unusable; [reflexivity|]. right. left. exact Hnan.
  - intros p Hp Hne Hcolon. rewrite Hd. apply formatDuration_raw.
    apply formatDuration_no_colon. unfold Spec.preformatted.
    rewrite Hp, (first_present_left _ _ _ Hne). intros p' [= <-]. exact Hcolon.
Qed.

Lemma general_value_not_skipped_witness :
  ∃ m, metadata (analyzeVideo Examples.locale Examples.file
                   (Returns (Examples.probe_of
                      [Examples.general_bad_duration; Examples.video_with_duration]))
                   Examples.idle) = Some m
       ∧ duration m = unknown.
Proof.
  eexists. split; [vm_compute; reflexivity|].
  apply (proj1 (general_value_not_skipped Examples.locale Examples.file
                  (Examples.probe_of
                     [Examples.general_bad_duration; Examples.video_with_duration])
                  Examples.idle _ eq_refl) "abc").
  - reflexivity.
  - discriminate.
  - reflexivity.
  - intros p Hp. vm_compute in Hp. discriminate.
Defined.

(** X8. Without a usable [Duration] on the General, Video and Audio tracks
    and without a preformatted string with ':', the duration comes from the
    largest positive duration of any track of the probe, and is the sentinel
    when no track has one. *)
Theorem duration_from_other_tracks
    (toLocaleString : Z → string) (file : File.t) (result : MediaInfoResult) (st : State)
    (m : VideoMetadata) :
  metadata (analyzeVideo toLocaleString file (Returns result) st) = Some m →
  let general := find_track result "General" in
  let video := find_track result "Video" in
  let audio := find_track result "Audio" in
  let ds := Spec.positive_durations (Spec.tracks_of result) in
  (∀ p, Spec.preformatted general video audio = Some p → ¬ Spec.substring_of ":" p) →
  JS.truthy (field general "Duration") = false →
  JS.truthy (field video "Duration") = false →
  JS.truthy (field audio "Duration") = false →
  (ds = [] → duration m = unknown)
  ∧ (∀ q, ds ≠ [] → JS.max ds = JS.Real q →
          duration m = Spec.hms (Spec.total_seconds q)).
Proof.
  intros Hm general video audio ds Hpre Hg Hv Ha.
  apply analyzeVideo_fields in Hm. cbv zeta in Hm.
  destruct Hm as (_ & _ & _ & _ & _ & _ & _ & _ & _ & Hd & _).
  fold general video audio in Hd.
  rewrite formatDuration_raw in Hd by (apply formatDuration_no_colon; exact Hpre).
  assert (Spec.raw_duration general video audio (Spec.tracks_of result) =
          JS.Num (match ds with [] => JS.of_Z 0 | _ => JS.max ds end)) as Hraw.
  { unfold Spec.raw_duration, ds.
    destruct (field general "Duration") as [[|? ?]|]; try discriminate;
      destruct (field video "Duration") as [[|? ?]|]; try discriminate;
      destruct (field audio "Duration") as [[|? ?]|]; try discriminate;
      cbn [Spec.first_present];
      destruct (Spec.positive_durations (Spec.tracks_of result)); reflexivity. }
  rewrite Hraw in Hd. split.
  - intros E. rewrite Hd, E. reflexivity.
  - intros q Hne Hq. rewrite Hd.
    destruct (max_positive_durations (Spec.tracks_of result) Hne) as [Hin _].
    fold ds in Hin. apply positive_durations_spec in Hin as [_ Hpos].
    rewrite Hq in Hpos.
    assert (0 < q)%Q as Hq0.
    { unfold JS.gt, JS.lt, JS.of_Z in Hpos. apply negb_true_iff in Hpos.
      apply Qnot_le_lt. intros Hle. apply Qle_bool_iff in Hle.
      change (inject_Z 0) with 0%Q in Hpos. congruence. }
    destruct ds as [|d ds']; [contradiction|].
    apply formatDuration_positive; [reflexivity|exact Hq|exact Hq0].
Qed.

Lemma duration_from_other_tracks_witness :
  ∃ m, metadata (analyzeVideo Examples.locale Examples.file
                   (Returns (Examples.probe_of
                      [Examples.general_plain; Examples.text_with_duration]))
                   Examples.idle) = Some m
       ∧ duration m = Spec.hms 65.
Proof.
  eexists. split; [vm_compute; reflexivity|].
  apply (proj2 (duration_from_other_tracks Examples.locale Examples.file
                  (Examples.probe_of [Examples.general_plain; Examples.text_with_duration])
                  Examples.idle _ eq_refl
                  ltac:(intros p Hp; vm_compute in Hp; discriminate)
                  eq_refl eq_refl eq_refl)
               (JS.decimal_value (N.to_uint 65000) Decimal.Nil * JS.pow10 0)%Q).
  - discriminate.
  - reflexivity.
Defined.

(** X9. The frame rate is the Video track's [FrameRate] whenever that field
    is present, the empty string included (the field is then " fps");
    [FrameRate_Nominal] is used only when [FrameRate] is absent. *)
Theorem frameRate_sources
    (toLocaleString : Z → string) (file : File.t) (result : MediaInfoResult) (st : State)
    (m : VideoMetadata) (v : Track) :
  metadata (analyzeVideo toLocaleString file (Returns result) st) = Some m →
  find_track result "Video" = Some v →
  (∀ s, v !! "FrameRate" = Some s → frameRate m = s ++ " fps")
  ∧ (∀ s, v !! "FrameRate" = None → v !! "FrameRate_Nominal" = Some s →
          frameRate m = s ++ " fps").
Proof.
  intros Hm Hv. apply analyzeVideo_fields in Hm. cbv zeta in Hm.
  destruct Hm as (_ & _ & _ & _ & _ & _ & _ & _ & Hfr & _).
  rewrite Hv in Hfr. split.
  - intros s Hs. rewrite Hfr, Hs. reflexivity.
  - intros s Hn Hs. rewrite Hfr, Hn, Hs. reflexivity.
Qed.

Lemma frameRate_sources_witness :
  ∃ m, metadata (analyzeVideo Examples.locale Examples.file
                   (Returns (Examples.probe_of [Examples.video_empty_rate]))
                   Examples.idle) = Some m
       ∧ frameRate m = " fps".
Proof.
  eexists. split; [vm_compute; reflexivity|].
  apply (proj1 (frameRate_sources Examples.locale Examples.file
                  (Examples.probe_of [Examples.video_empty_rate]) Examples.idle _
                  Examples.video_empty_rate eq_refl eq_refl) EmptyString).
  reflexivity.
Defined.

Lemma mbps_NaN (bits : string) : JS.parseInt bits = JS.NaN → mbps bits = "NaN Mbps".
Proof. intros H. unfold mbps. rewrite H. reflexivity. Qed.

(** X10. The bit rate is computed from the Video track's [BitRate] whenever
    that field is a non-empty string, and from the General track's
    [OverallBitRate] only otherwise; a non-empty value that [parseInt]
    cannot read is shown as "NaN Mbps", not as the sentinel. *)
Theorem bitRate_sources
    (toLocaleString : Z → string) (file : File.t) (result : MediaInfoResult) (st : State)
    (m : VideoMetadata) :
  metadata (analyzeVideo toLocaleString file (Returns result) st) = Some m →
  let general := find_track result "General" in
  let video := find_track result "Video" in
  (∀ s, field video "BitRate" = Some s → s ≠ EmptyString →
        bitRate m = mbps s ∧ (JS.parseInt s = JS.NaN → bitRate m = "NaN Mbps"))
  ∧ (∀ s, JS.truthy (field video "BitRate") = false →
          field general "OverallBitRate" = Some s → s ≠ EmptyString →
          bitRate m = mbps s ∧ (JS.parseInt s = JS.NaN → bitRate m = "NaN Mbps"))
  ∧ (JS.truthy (field video "BitRate") = false →
     JS.truthy (field general "OverallBitRate") = false → bitRate m = unknown).
Proof.
  intros Hm general video. apply analyzeVideo_fields in Hm. cbv zeta in Hm.
  destruct Hm as (_ & _ & _ & _ & _ & _ & Hbr & _).
  fold general video in Hbr. split; [|split].
  - intros s Hs Hne. rewrite Hbr, Hs. destruct s as [|c r]; [contradiction|].
    cbn [JS.truthy JS.to_str]. split; [reflexivity|apply mbps_NaN].
  - intros s Hv Hs Hne. rewrite Hbr, Hv, Hs. destruct s as [|c r]; [contradiction|].
    cbn [JS.truthy JS.to_str]. split; [reflexivity|apply mbps_NaN].
  - intros Hv Hg. rewrite Hbr, Hv, Hg. reflexivity.
Qed.

Lemma bitRate_sources_witness :
  ∃ m, metadata (analyzeVideo Examples.locale Examples.file
                   (Returns (Examples.probe_of
                      [Examples.general_overall; Examples.video_bad_bitrate]))
                   Examples.idle) = Some m
       ∧ bitRate m = "NaN Mbps".
Proof.
  eexists. split; [vm_compute; reflexivity|].
  apply (proj1 (bitRate_sources Examples.locale Examples.file
                  (Examples.probe_of [Examples.general_overall; Examples.video_bad_bitrate])
                  Examples.idle _ eq_refl) "variable").
  - reflexivity.
  - discriminate.
  - reflexivity.
Defined.

(** ** Numbers written as strings *)

Lemma plain_suffix_scan rest : Spec.plain_suffix rest → JS.scan_digits rest = (Decimal.Nil, rest).
Proof.
  destruct rest as [|c r]; [reflexivity|]. intros (H & _). cbn [JS.scan_digits].
  rewrite H. reflexivity.
Qed.

Lemma no_hex_prefix (n : N) (rest : string) (x : ascii) :
  Spec.plain_suffix rest → (x = "x" ∨ x = "X")%char →
  String.prefix (String "0" (String x EmptyString)) (JS.N_to_string n ++ rest) = false.
Proof.
  intros Hrest Hx.
  destruct (String.prefix _ _) eqn:E; [|reflexivity]. exfalso.
  apply prefix_spec in E as [tail E]. rewrite !append_cons in E.
  unfold JS.N_to_string in E.
  assert (N.to_uint n ≠ Decimal.Nil) as Hnil.
  { intros H. pose proof (N_to_string_nonempty n) as Hn. unfold JS.N_to_string in Hn.
    rewrite H in Hn. apply Hn. reflexivity. }
  destruct (N.to_uint n) as [|d|d|d|d|d|d|d|d|d|d]; try contradiction;
    cbn [NilEmpty.string_of_uint] in E; rewrite append_cons in E; try discriminate.
  injection E as E.
  destruct d as [|d|d|d|d|d|d|d|d|d|d]; cbn [NilEmpty.string_of_uint] in E;
    rewrite ?append_cons in E;
    try (injection E as E _; destruct Hx; subst x; discriminate).
  rewrite append_nil_l in E. destruct rest as [|c r]; [discriminate|].
  injection E as -> _. destruct Hrest as (_ & H1 & H2). destruct Hx; contradiction.
Qed.

(** [parseInt] reads back a printed natural number, whatever plain text
    follows it. *)
Lemma parseInt_print (n : N) (rest : string) :
  Spec.plain_suffix rest → JS.parseInt (JS.N_to_string n ++ rest) = JS.of_Z (Z.of_N n).
Proof.
  intros Hrest. destruct (N_to_string_head n) as (c & r & Hs & Hc).
  unfold JS.parseInt. rewrite Hs, append_cons.
  rewrite (digit_not_space _ _ Hc), (digit_not_sign _ _ Hc).
  rewrite <- append_cons, <- Hs.
  rewrite (no_hex_prefix n rest "x" Hrest (or_introl eq_refl)).
  rewrite (no_hex_prefix n rest "X" Hrest (or_intror eq_refl)). cbn [orb].
  unfold JS.N_to_string. rewrite (scan_digits_print _ _ (plain_suffix_scan _ Hrest)).
  assert (N.to_uint n ≠ Decimal.Nil) as Hnil.
  { intros H. pose proof (N_to_string_nonempty n) as Hn. unfold JS.N_to_string in Hn.
    rewrite H in Hn. apply Hn. reflexivity. }
  destruct (N.to_uint n) eqn:E; [contradiction|..]; rewrite <- E;
    rewrite DecimalN.Unsigned.of_to; reflexivity.
Qed.

(** X11. A Video track whose [Width] and [Height] are positive whole
    numbers below 2^53 in decimal notation, possibly followed by text such
    as a unit, gives the resolution string "W x H" with the two numbers and
    the class of that pair.  (From 2^53 on [parseInt] rounds to binary64 and
    other digits are shown.) *)
Theorem resolution_of_decimal_fields
    (toLocaleString : Z → string) (file : File.t) (result : MediaInfoResult) (st : State)
    (m : VideoMetadata) (v : Track) (w h : N) (rest_w rest_h : string) :
  metadata (analyzeVideo toLocaleString file (Returns result) st) = Some m →
  find_track result "Video" = Some v →
  v !! "Width" = Some (JS.N_to_string w ++ rest_w) → Spec.plain_suffix rest_w →
  v !! "Height" = Some (JS.N_to_string h ++ rest_h) → Spec.plain_suffix rest_h →
  (0 < w < 9007199254740992)%N → (0 < h < 9007199254740992)%N →
  resolution m = JS.N_to_string w ++ " x " ++ JS.N_to_string h
  ∧ resolutionLabel m = Spec.classify (Z.of_N w) (Z.of_N h).
Proof.
  intros Hm Hv Hw Hrw Hh Hrh [Hw0 _] [Hh0 _].
  apply analyzeVideo_fields in Hm. cbv zeta in Hm.
  destruct Hm as (_ & _ & _ & _ & Hres & Hlab & _).
  rewrite Hv, Hw, Hh in Hres, Hlab. cbn [JS.to_str] in Hres, Hlab.
  rewrite (parseInt_print _ _ Hrw), (parseInt_print _ _ Hrh) in Hres, Hlab.
  destruct (resolution_cases (JS.of_Z (Z.of_N w)) (JS.of_Z (Z.of_N h))) as [H1 H2];
    [right; eauto|right; eauto|].
  rewrite !pixels_of_Z in H1, H2. rewrite Hres, Hlab, H1, H2. split; [|reflexivity].
  unfold Spec.resolution_string, Spec.dec.
  destruct (Z.eqb_spec (Z.of_N w) 0); [lia|]. destruct (Z.eqb_spec (Z.of_N h) 0); [lia|].
  destruct (Z.ltb_spec (Z.of_N w) 0); [lia|]. destruct (Z.ltb_spec (Z.of_N h) 0); [lia|].
  rewrite !N2Z.id. reflexivity.
Qed.

Lemma resolution_of_decimal_fields_witness :
  ∃ m, metadata (analyzeVideo Examples.locale Examples.file
                   (Returns (Examples.probe_of [Examples.video_with_units]))
                   Examples.idle) = Some m
       ∧ resolution m = "1920 x 1080" ∧ resolutionLabel m = "FullHD".
Proof.
  eexists. split; [vm_compute; reflexivity|].
  apply (resolution_of_decimal_fields Examples.locale Examples.file
           (Examples.probe_of [Examples.video_with_units]) Examples.idle _
           Examples.video_with_units 1920 1080 " pixels" " pixels" eq_refl eq_refl eq_refl).
  - repeat split; discriminate.
  - reflexivity.
  - repeat split; discriminate.
  - lia.
  - lia.
Defined.

(** X12. The class does not depend on the orientation: exchanging the
    [Width] and [Height] strings gives the same label. *)
Theorem label_orientation (width height : string) :
  getResolutionLabel (JS.parseInt width) (JS.parseInt height) =
  getResolutionLabel (JS.parseInt height) (JS.parseInt width).
Proof.
  destruct (parseInt_cases width) as [->|[w ->]], (parseInt_cases height) as [->|[h ->]];
    try reflexivity.
  unfold getResolutionLabel. rewrite !max2_of_Z, Z.max_comm. reflexivity.
Qed.

Lemma parseFloat_print (n : N) :
  JS.parseFloat (JS.N_to_string n) = JS.Real ((inject_Z (Z.of_N n) + (0 # 1)) * 1).
Proof.
  destruct (N_to_string_head n) as (c & r & Hs & Hc).
  unfold JS.parseFloat. rewrite Hs.
  rewrite (digit_not_space _ _ Hc), (digit_not_sign _ _ Hc), (digit_not_Infinity _ _ Hc).
  rewrite <- Hs. unfold JS.N_to_string.
  rewrite <- (append_nil_r (NilEmpty.string_of_uint (N.to_uint n))).
  rewrite scan_digits_print by reflexivity.
  assert (N.to_uint n ≠ Decimal.Nil) as Hnil.
  { intros H. pose proof (N_to_string_nonempty n) as Hn. unfold JS.N_to_string in Hn.
    rewrite H in Hn. apply Hn. reflexivity. }
  destruct (N.to_uint n) eqn:E; [contradiction|..]; rewrite <- E;
    unfold JS.decimal_value; rewrite DecimalN.Unsigned.of_to; reflexivity.
Qed.

(** X13. A raw duration given as the decimal notation of a natural number
    is formatted exactly as that number: strings and numbers are treated
    alike. *)
Theorem duration_string_as_number (n : N) (ds3 : option string) :
  formatDuration (JS.Str (JS.N_to_string n)) ds3 =
  formatDuration (JS.Num (JS.of_Z (Z.of_N n))) ds3.
Proof.
  destruct (JS.truthy ds3 && JS.includes (JS.to_str ds3) ":") eqn:Hds.
  { unfold formatDuration. rewrite Hds. reflexivity. }
  assert ((inject_Z (Z.of_N n) + (0 # 1)) * 1 == inject_Z (Z.of_N n)) as Heq by ring.
  destruct (N.eq_dec n 0%N) as [->|Hn].
  { unfold formatDuration. rewrite Hds. reflexivity. }
  assert (0 < inject_Z (Z.of_N n))%Q as Hpos.
  { unfold Qlt. simpl. lia. }
  assert (0 < (inject_Z (Z.of_N n) + (0 # 1)) * 1)%Q as Hpos' by (rewrite Heq; exact Hpos).
  rewrite (formatDuration_positive (JS.Str (JS.N_to_string n)) ds3 _ Hds
             (parseFloat_print n) Hpos').
  rewrite (formatDuration_positive (JS.Num (JS.of_Z (Z.of_N n))) ds3 _ Hds eq_refl Hpos).
  unfold Spec.total_seconds. rewrite (Qfloor_comp _ _ Heq).
  assert ((inject_Z (Z.of_N n) + (0 # 1)) * 1 / 1000 == inject_Z (Z.of_N n) / 1000) as Hd
    by (rewrite Heq; reflexivity).
  rewrite (Qfloor_comp _ _ Hd). reflexivity.
Qed.

(** X14. An infinite raw value passes the guard against unusable numbers
    and is shown as "Infinity:NaN:NaN". *)
Theorem duration_of_Infinity (value : JS.value) (ds3 : option string) :
  (JS.truthy ds3 && JS.includes (JS.to_str ds3) ":") = false →
  JS.parseFloat_value value = JS.Infinity →
  formatDuration value ds3 = "Infinity:NaN:NaN".
Proof.
  intros Hds Hv. unfold formatDuration. rewrite Hds.
  assert (JS.truthy_value value = true) as ->.
  { destruct value as [s|k]; simpl in *; [|subst k; reflexivity].
    destruct s; [discriminate|reflexivity]. }
  rewrite Hv. reflexivity.
Qed.

Lemma duration_of_Infinity_witness :
  formatDuration (JS.Str "Infinity") None = "Infinity:NaN:NaN".
Proof.
  apply (duration_of_Infinity (JS.Str "Infinity") None); reflexivity.
Defined.

(** ** Codec names: which fields matter *)

Lemma or_Some_nonempty (r : string) (a : option string) :
  r ≠ EmptyString → JS.or_else (JS.or (Some r) a) unknown = r.
Proof. destruct r; [contradiction|reflexivity]. Qed.

(** The composed name is not empty when the format code or the format
    information is present, so the codec identifier is not consulted. *)
Lemma getDetailedCodec_named (format info profile : string) :
  format ≠ EmptyString ∨ info ≠ EmptyString →
  ∀ t t' : Track,
    JS.or_else (t !! "Format") EmptyString = format →
    JS.or_else (t !! "Format_Information") EmptyString = info →
    JS.or_else (t !! "Format_Profile") EmptyString = profile →
    JS.or_else (t' !! "Format") EmptyString = format →
    JS.or_else (t' !! "Format_Information") EmptyString = info →
    JS.or_else (t' !! "Format_Profile") EmptyString = profile →
    getDetailedCodec (Some t') = getDetailedCodec (Some t).
Proof.
  intros Hne t t' Hf Hi Hp Hf' Hi' Hp'. unfold getDetailedCodec.
  rewrite Hf, Hi, Hp, Hf', Hi', Hp'. cbv zeta.
  assert (JS.or_str info format ≠ EmptyString) as Hiso.
  { destruct info; [|discriminate]. destruct Hne as [H|H]; [exact H|contradiction]. }
  destruct (String.eqb format "AVC");
    [|destruct (String.eqb format "HEVC"); [|destruct (String.eqb format "MPEG-4 Visual")]];
    destruct (String.eqb format "AAC"); cbv beta iota;
    rewrite !or_Some_nonempty; try reflexivity;
    repeat match goal with
           | |- (if ?b then _ else _) ≠ _ => destruct b
           | |- _ ++ _ ≠ _ => apply append_nonempty_l
           end; try discriminate; exact Hiso.
Qed.

(** X15. When the track has a format code or a format information, the
    resolved name is a function of [Format], [Format_Information] and
    [Format_Profile] alone: two tracks that agree on these three fields get
    the same name, so adding, changing or removing [CodecID] (or any other
    field) changes nothing. *)
Theorem codec_depends_on_three_fields (t t' : Track) :
  JS.or_else (t !! "Format") EmptyString ≠ EmptyString
  ∨ JS.or_else (t !! "Format_Information") EmptyString ≠ EmptyString →
  t' !! "Format" = t !! "Format" →
  t' !! "Format_Information" = t !! "Format_Information" →
  t' !! "Format_Profile" = t !! "Format_Profile" →
  getDetailedCodec (Some t') = getDetailedCodec (Some t)
  ∧ ∀ x, getDetailedCodec (Some (<["CodecID" := x]> t)) = getDetailedCodec (Some t)
         ∧ getDetailedCodec (Some (delete "CodecID" t)) = getDetailedCodec (Some t).
Proof.
  intros Hne Hf Hi Hp. split; [|intros x; split].
  - apply (getDetailedCodec_named _ _ (JS.or_else (t !! "Format_Profile") EmptyString) Hne t t'); try reflexivity;
      rewrite ?Hf, ?Hi, ?Hp; reflexivity.
  - apply (getDetailedCodec_named _ _ (JS.or_else (t !! "Format_Profile") EmptyString) Hne t (<["CodecID" := x]> t)); try reflexivity;
      rewrite lookup_insert_ne by discriminate; reflexivity.
  - apply (getDetailedCodec_named _ _ (JS.or_else (t !! "Format_Profile") EmptyString) Hne t (delete "CodecID" t)); try reflexivity;
      rewrite lookup_delete_ne by discriminate; reflexivity.
Qed.

Lemma codec_depends_on_three_fields_witness :
  getDetailedCodec (Some (<["CodecID" := "avc1"]> Examples.avc_high))
  = getDetailedCodec (Some Examples.avc_high).
Proof.
  apply (proj2 (codec_depends_on_three_fields Examples.avc_high Examples.avc_high
                  ltac:(left; discriminate) eq_refl eq_refl eq_refl) "avc1").
Defined.

(** X16. For the four codes of the table the format information is ignored:
    two tracks with the same such [Format] and the same [Format_Profile] get
    the same name. *)
Theorem table_code_ignores_information (t t' : Track) (format : string) :
  Spec.in_table format →
  t !! "Format" = Some format → t' !! "Format" = Some format →
  t' !! "Format_Profile" = t !! "Format_Profile" →
  getDetailedCodec (Some t') = getDetailedCodec (Some t).
Proof.
  intros Htab Hf Hf' Hp.
  assert (format ≠ EmptyString) as Hne.
  { destruct Htab as [<-|[<-|[<-|[<-|[]]]]]; discriminate. }
  assert (∀ u : Track, u !! "Format" = Some format →
            JS.or_else (u !! "Format") EmptyString = format) as Hfmt.
  { intros u ->. destruct format; [contradiction|reflexivity]. }
  pose proof (getDetailedCodec_composed t) as H. cbv zeta in H.
  pose proof (getDetailedCodec_composed t') as H'. cbv zeta in H'.
  rewrite (Hfmt t Hf) in H. rewrite (Hfmt t' Hf') in H'.
  destruct (H Hne) as [_ ->]. destruct (H' Hne) as [_ ->]. rewrite Hp.
  assert (∀ info info', Spec.canonical_names format info = Spec.canonical_names format info')
    as Hnames.
  { intros info info'. destruct Htab as [<-|[<-|[<-|[<-|[]]]]]; reflexivity. }
  rewrite (Hnames (JS.or_else (t' !! "Format_Information") EmptyString)
                  (JS.or_else (t !! "Format_Information") EmptyString)).
  reflexivity.
Qed.

Lemma table_code_ignores_information_witness :
  getDetailedCodec (Some (<["Format_Information" := "Advanced Video Codec"]>
                            Examples.avc_high))
  = getDetailedCodec (Some Examples.avc_high).
Proof.
  apply (table_code_ignores_information Examples.avc_high _ "AVC").
  - left. reflexivity.
  - reflexivity.
  - reflexivity.
  - reflexivity.
Defined.

Lemma includes_empty_string (sub : string) :
  sub ≠ EmptyString → JS.includes EmptyString sub = false.
Proof. destruct sub; [contradiction|reflexivity]. Qed.

(** X17. A track with neither format code nor format information but with
    a profile other than "Base" and "Main" is named by the bracketed profile
    alone, with its leading space; the codec identifier is not used. *)
Theorem profile_without_name (t : Track) (profile : string) :
  JS.or_else (t !! "Format") EmptyString = EmptyString →
  JS.or_else (t !! "Format_Information") EmptyString = EmptyString →
  t !! "Format_Profile" = Some profile →
  profile ≠ EmptyString → profile ≠ "Base" → profile ≠ "Main" →
  getDetailedCodec (Some t) = " [" ++ profile ++ "]".
Proof.
  intros Hf Hi Hp Hne Hb Hm. unfold getDetailedCodec. rewrite Hf, Hi, Hp.
  assert (JS.or_else (Some profile) EmptyString = profile) as ->
    by (destruct profile; reflexivity).
  assert (JS.truthy (Some profile) = true) as Ht.
  { revert Hne. clear. destruct profile; [intros H; contradiction|reflexivity]. }
  apply String.eqb_neq in Hb, Hm.
  change (String.eqb EmptyString "AVC") with false.
  change (String.eqb EmptyString "HEVC") with false.
  change (String.eqb EmptyString "MPEG-4 Visual") with false.
  change (String.eqb EmptyString "AAC") with false.
  cbv zeta beta iota. cbn [JS.or_str].
  change (JS.truthy (Some EmptyString)) with false. cbn [andb].
  rewrite Ht, Hb, Hm, (includes_empty_string _ Hne). cbn [negb andb].
  reflexivity.
Qed.

Lemma profile_without_name_witness :
  getDetailedCodec (Some Examples.profile_only) = " [High]".
Proof.
  apply (profile_without_name Examples.profile_only "High");
    try reflexivity; discriminate.
Defined.

(** ** Sizes: whole multiples and the range of the number shown *)

Lemma power_index_unique (b i j : Z) :
  (0 <= i)%Z → (0 <= j)%Z →
  (1024 ^ i <= b < 1024 ^ (i + 1))%Z → (1024 ^ j <= b < 1024 ^ (j + 1))%Z → i = j.
Proof.
  intros Hi Hj [Hil Hiu] [Hjl Hju].
  destruct (Z.lt_trichotomy i j) as [H|[H|H]]; [exfalso|exact H|exfalso].
  - assert (1024 ^ (i + 1) <= 1024 ^ j)%Z by (apply Z.pow_le_mono_r; lia). lia.
  - assert (1024 ^ (j + 1) <= 1024 ^ i)%Z by (apply Z.pow_le_mono_r; lia). lia.
Qed.

Lemma shortest_decimal_whole (k : Z) :
  (0 <= k)%Z → Spec.shortest_decimal (100 * k) = JS.N_to_string (Z.to_N k).
Proof.
  intros Hk. unfold Spec.shortest_decimal, Spec.dec.
  replace (100 * k / 100)%Z with k by (Z.div_mod_to_equations; lia).
  replace ((100 * k) mod 100)%Z with 0%Z by (Z.div_mod_to_equations; lia).
  destruct (Z.ltb_spec k 0); [lia|]. cbn [Z.eqb]. apply append_nil_r.
Qed.

(** X18. A whole multiple of a unit is shown without decimals: for
    [1 <= k < 1024], [k * 1024^i] bytes are shown as [k], a space and
    [sizes[i]] (so fewer than 1024 bytes are shown as that many "Bytes"). *)
Theorem formatSize_whole_multiple (k i : N) :
  (1 <= k < 1024)%N →
  formatSize (k * 1024 ^ i) = JS.N_to_string k ++ " " ++ JS.to_str (sizes !! N.to_nat i).
Proof.
  intros Hk.
  assert (0 < 1024 ^ Z.of_N i)%Z as Hp by (apply Z.pow_pos_nonneg; lia).
  assert (Z.of_N (k * 1024 ^ i) = Z.of_N k * 1024 ^ Z.of_N i)%Z as Hb.
  { rewrite N2Z.inj_mul, N2Z.inj_pow. reflexivity. }
  destruct (formatSize_positive (k * 1024 ^ i)) as (j & n & Hj & Hrange & Hn & ->).
  { apply N2Z.inj_lt. rewrite Hb. simpl. nia. }
  rewrite Hb in Hrange, Hn.
  assert (Z.of_N i = j) as <-.
  { apply (power_index_unique (Z.of_N k * 1024 ^ Z.of_N i)); try lia.
    rewrite Z.pow_add_r, Z.pow_1_r by lia. nia. }
  assert (n = 100 * Z.of_N k)%Z as -> by nia.
  rewrite shortest_decimal_whole by lia. rewrite !N2Z.id.
  replace (Z.to_nat (Z.of_N i)) with (N.to_nat i) by lia. reflexivity.
Qed.

Lemma formatSize_whole_multiple_witness : formatSize (3 * 1024 ^ 2) = "3 MB".
Proof. apply (formatSize_whole_multiple 3 2). lia. Defined.

(** X19. For a positive byte count below 10^15 the unit index [i] is the
    floor of the base-1024 logarithm, at most 4, so that the unit is one of
    the five of [sizes]; the number shown is [n / 100] for the integer [n]
    nearest to [100 bytes / 1024^i] (the larger on a tie), in its shortest
    decimal notation, and lies between 1 and 1024.  It is 1024 in the last
    1/204800 of a unit's range, where the size is shown as 1024 of the
    smaller unit and not as 1 of the next one. *)
Theorem formatSize_number_range (bytes : N) :
  (0 < bytes < 1000000000000000)%N →
  ∃ (i n : Z) (unit : string),
    (0 <= i <= 4)%Z
    ∧ (1024 ^ i <= Z.of_N bytes < 1024 ^ (i + 1))%Z
    ∧ sizes !! Z.to_nat i = Some unit
    ∧ (100 <= n <= 102400)%Z
    ∧ ((2 * n - 1) * 1024 ^ i <= 200 * Z.of_N bytes < (2 * n + 1) * 1024 ^ i)%Z
    ∧ formatSize bytes = Spec.shortest_decimal n ++ " " ++ unit
    ∧ ((204799 * 1024 ^ i <= 200 * Z.of_N bytes)%Z →
       formatSize bytes = "1024 " ++ unit).
Proof.
  intros [Hpos Hbound].
  destruct (formatSize_positive bytes Hpos) as (i & n & Hi & Hrange & Hn & Heq).
  assert (0 < 1024 ^ i)%Z as Hp by (apply Z.pow_pos_nonneg; lia).
  assert (Z.of_N bytes < 1024 * 1024 ^ i)%Z as Hup.
  { rewrite <- Z.pow_succ_r by exact Hi. apply Hrange. }
  assert (i <= 4)%Z as Hi4.
  { destruct (Z.le_gt_cases i 4) as [H|H]; [exact H|]. exfalso.
    assert (1024 ^ 5 <= 1024 ^ i)%Z by (apply Z.pow_le_mono_r; lia).
    change (1024 ^ 5)%Z with 1125899906842624%Z in *. lia. }
  assert (∃ unit, sizes !! Z.to_nat i = Some unit) as [unit Hunit].
  { assert (i = 0 ∨ i = 1 ∨ i = 2 ∨ i = 3 ∨ i = 4)%Z as Hcases by lia.
    destruct Hcases as [->|[->|[->|[->| ->]]]]; eexists; reflexivity. }
  rewrite Hunit in Heq. cbn [JS.to_str] in Heq.
  exists i, n, unit. split; [lia|]. split; [exact Hrange|]. split; [exact Hunit|].
  split; [split; nia|]. split; [exact Hn|]. split; [exact Heq|].
  intros Htop. assert (n = 102400)%Z as -> by nia. rewrite Heq. reflexivity.
Qed.

Lemma formatSize_number_range_witness :
  ∃ (i n : Z) (unit : string),
    (0 <= i <= 4)%Z
    ∧ (1024 ^ i <= 1048575 < 1024 ^ (i + 1))%Z
    ∧ sizes !! Z.to_nat i = Some unit
    ∧ (100 <= n <= 102400)%Z
    ∧ ((2 * n - 1) * 1024 ^ i <= 200 * 1048575 < (2 * n + 1) * 1024 ^ i)%Z
    ∧ formatSize 1048575 = Spec.shortest_decimal n ++ " " ++ unit
    ∧ ((204799 * 1024 ^ i <= 200 * 1048575)%Z → formatSize 1048575 = "1024 " ++ unit).
Proof. apply (formatSize_number_range 1048575). lia. Defined.

(** ** Durations: the text determines the seconds *)

Lemma no_colon_nil : ¬ Spec.substring_of ":" EmptyString.
Proof. intros [[|b before] [after H]]; discriminate. Qed.

Lemma no_colon_cons c s :
  c ≠ ":"%char → ¬ Spec.substring_of ":" s → ¬ Spec.substring_of ":" (String c s).
Proof.
  intros Hc Hs [[|b before] [after H]].
  - injection H as H _. contradiction.
  - rewrite append_cons in H. injection H as _ H. apply Hs. exists before, after. exact H.
Qed.

Lemma no_colon_uint (d : Decimal.uint) : ¬ Spec.substring_of ":" (NilEmpty.string_of_uint d).
Proof.
  induction d; cbn [NilEmpty.string_of_uint];
    [apply no_colon_nil|apply no_colon_cons; [discriminate|assumption]..].
Qed.

Lemma digit_char_code (d : Z) :
  (0 <= d <= 9)%Z → JS.code (JS.digit_char d) = (48 + Z.to_N d)%N.
Proof.
  intros Hd. unfold JS.code, JS.digit_char. apply N_ascii_embedding. lia.
Qed.

Lemma digit_char_not_colon (d : Z) : (0 <= d <= 9)%Z → JS.digit_char d ≠ ":"%char.
Proof.
  intros Hd E. apply (f_equal JS.code) in E. rewrite (digit_char_code _ Hd) in E.
  change (JS.code ":") with 58%N in E. lia.
Qed.

Lemma digit_char_inj (a b : Z) :
  (0 <= a <= 9)%Z → (0 <= b <= 9)%Z → JS.digit_char a = JS.digit_char b → a = b.
Proof.
  intros Ha Hb E. apply (f_equal JS.code) in E.
  rewrite (digit_char_code _ Ha), (digit_char_code _ Hb) in E. lia.
Qed.

Lemma no_colon_two_digits (n : Z) :
  (0 <= n < 100)%Z → ¬ Spec.substring_of ":" (Spec.two_digits n).
Proof.
  intros Hn. unfold Spec.two_digits.
  apply no_colon_cons; [apply digit_char_not_colon; Z.div_mod_to_equations; lia|].
  apply no_colon_cons; [apply digit_char_not_colon; Z.div_mod_to_equations; lia|].
  apply no_colon_nil.
Qed.

Lemma two_digits_inj (a b : Z) :
  (0 <= a < 100)%Z → (0 <= b < 100)%Z → Spec.two_digits a = Spec.two_digits b → a = b.
Proof.
  intros Ha Hb E. unfold Spec.two_digits in E. injection E as E1 E2.
  apply digit_char_inj in E1; [|Z.div_mod_to_equations; lia..].
  apply digit_char_inj in E2; [|Z.div_mod_to_equations; lia..].
  Z.div_mod_to_equations. lia.
Qed.

Lemma N_to_string_inj (a b : N) : JS.N_to_string a = JS.N_to_string b → a = b.
Proof.
  unfold JS.N_to_string. intros E. apply DecimalN.Unsigned.to_uint_inj.
  apply (f_equal NilEmpty.uint_of_string) in E. rewrite !NilEmpty.usu in E.
  injection E as E. exact E.
Qed.

Lemma split_before_colon (a b : string) :
  ¬ Spec.substring_of ":" a → JS.split ":" (a ++ String ":" b) = a :: JS.split ":" b.
Proof.
  induction a as [|c a IH]; intros Ha; [reflexivity|].
  rewrite append_cons. cbn [JS.split].
  destruct (Ascii.eqb_spec c ":") as [->|Hc].
  { exfalso. apply Ha. exists EmptyString, a. reflexivity. }
  rewrite IH; [reflexivity|].
  intros (before & after & H). apply Ha. exists (String c before), after.
  rewrite append_cons, H. reflexivity.
Qed.

Lemma split_without_colon (a : string) :
  ¬ Spec.substring_of ":" a → JS.split ":" a = [a].
Proof.
  induction a as [|c a IH]; intros Ha; [reflexivity|]. cbn [JS.split].
  destruct (Ascii.eqb_spec c ":") as [->|Hc].
  { exfalso. apply Ha. exists EmptyString, a. reflexivity. }
  rewrite IH; [reflexivity|].
  intros (before & after & H). apply Ha. exists (String c before), after.
  rewrite append_cons, H. reflexivity.
Qed.

Lemma dec_nonneg (z : Z) : (0 <= z)%Z → Spec.dec z = JS.N_to_string (Z.to_N z).
Proof. intros H. unfold Spec.dec. destruct (Z.ltb_spec z 0); [lia|reflexivity]. Qed.

(** The fields of a formatted duration, read back by splitting at ':'. *)
Lemma split_hms (t : Z) :
  (0 <= t)%Z →
  JS.split ":" (Spec.hms t) =
  if (0 <? t / 3600)%Z
  then [JS.N_to_string (Z.to_N (t / 3600)); Spec.two_digits (t / 60 mod 60);
        Spec.two_digits (t mod 60)]
  else [JS.N_to_string (Z.to_N (t / 60 mod 60)); Spec.two_digits (t mod 60)].
Proof.
  intros Ht. unfold Spec.hms.
  assert (0 <= t / 3600)%Z as Hh by (apply Z.div_pos; lia).
  assert (0 <= t / 60 mod 60 < 100)%Z as Hm by (Z.div_mod_to_equations; lia).
  assert (0 <= t mod 60 < 100)%Z as Hs by (Z.div_mod_to_equations; lia).
  destruct (0 <? t / 3600)%Z; rewrite dec_nonneg by lia.
  - change (?a ++ ":" ++ ?b) with (a ++ String ":" b).
    rewrite split_before_colon by apply no_colon_uint.
    change (Spec.two_digits (t / 60 mod 60) ++ ":" ++ Spec.two_digits (t mod 60))
      with (Spec.two_digits (t / 60 mod 60) ++ String ":" (Spec.two_digits (t mod 60))).
    rewrite split_before_colon by (apply no_colon_two_digits; exact Hm).
    rewrite split_without_colon by (apply no_colon_two_digits; exact Hs). reflexivity.
  - change (?a ++ ":" ++ ?b) with (a ++ String ":" b).
    rewrite split_before_colon by apply no_colon_uint.
    rewrite split_without_colon by (apply no_colon_two_digits; exact Hs). reflexivity.
Qed.

Lemma hms_inj (t1 t2 : Z) :
  (0 <= t1)%Z → (0 <= t2)%Z → Spec.hms t1 = Spec.hms t2 → t1 = t2.
Proof.
  intros H1 H2 E. apply (f_equal (JS.split ":")) in E.
  rewrite (split_hms _ H1), (split_hms _ H2) in E.
  assert (0 <= t1 / 3600)%Z as Hh1 by (apply Z.div_pos; lia).
  assert (0 <= t2 / 3600)%Z as Hh2 by (apply Z.div_pos; lia).
  assert (0 <= t1 / 60 mod 60 < 100)%Z as Hm1 by (Z.div_mod_to_equations; lia).
  assert (0 <= t2 / 60 mod 60 < 100)%Z as Hm2 by (Z.div_mod_to_equations; lia).
  assert (0 <= t1 mod 60 < 100)%Z as Hs1 by (Z.div_mod_to_equations; lia).
  assert (0 <= t2 mod 60 < 100)%Z as Hs2 by (Z.div_mod_to_equations; lia).
  remember (Spec.two_digits (t1 / 60 mod 60)) as m1 eqn:Em1.
  remember (Spec.two_digits (t2 / 60 mod 60)) as m2 eqn:Em2.
  remember (Spec.two_digits (t1 mod 60)) as s1 eqn:Es1.
  remember (Spec.two_digits (t2 mod 60)) as s2 eqn:Es2.
  destruct (Z.ltb_spec 0 (t1 / 3600)), (Z.ltb_spec 0 (t2 / 3600)); try discriminate.
  - assert (JS.N_to_string (Z.to_N (t1 / 3600)) = JS.N_to_string (Z.to_N (t2 / 3600))
            ∧ m1 = m2 ∧ s1 = s2) as (Eh & Em & Es).
    { repeat split; congruence. }
    subst m1 m2 s1 s2.
    apply N_to_string_inj in Eh. apply two_digits_inj in Em, Es; try assumption.
    assert (t1 / 3600 = t2 / 3600)%Z by lia.
    Z.div_mod_to_equations. lia.
  - assert (JS.N_to_string (Z.to_N (t1 / 60 mod 60))
            = JS.N_to_string (Z.to_N (t2 / 60 mod 60)) ∧ s1 = s2) as (Em & Es).
    { repeat split; congruence. }
    subst s1 s2.
    apply N_to_string_inj in Em. apply two_digits_inj in Es; try assumption.
    assert (t1 / 60 mod 60 = t2 / 60 mod 60)%Z by lia.
    Z.div_mod_to_equations. lia.
Qed.



(** ** What the record depends on *)

Lemma metadata_eq (m1 m2 : VideoMetadata) :
  name m1 = name m2 → updatedDate m1 = updatedDate m2 → size m1 = size m2 →
  resolution m1 = resolution m2 → resolutionLabel m1 = resolutionLabel m2 →
  bitRate m1 = bitRate m2 → bitRateMode m1 = bitRateMode m2 →
  frameRate m1 = frameRate m2 → duration m1 = duration m2 →
  container m1 = container m2 → videoCodec m1 = videoCodec m2 →
  audioCodec m1 = audioCodec m2 → m1 = m2.
Proof. destruct m1, m2; simpl; intros; subst; reflexivity. Qed.

(** X21. The outcome of an analysis depends on the probe only through the
    first General, Video and Audio tracks and the positive durations of all
    tracks: two probes that agree on these leave the same state, whatever
    other tracks they contain and in whatever order. *)
Theorem analysis_depends_on_selection
    (toLocaleString : Z → string) (file : File.t) (r1 r2 : MediaInfoResult) (st : State) :
  find_track r1 "General" = find_track r2 "General" →
  find_track r1 "Video" = find_track r2 "Video" →
  find_track r1 "Audio" = find_track r2 "Audio" →
  Spec.positive_durations (Spec.tracks_of r1) = Spec.positive_durations (Spec.tracks_of r2) →
  analyzeVideo toLocaleString file (Returns r1) st
  = analyzeVideo toLocaleString file (Returns r2) st.
Proof.
  intros Hg Hv Ha Hd.
  rewrite (analyzeVideo_from toLocaleString file (Returns r1) st st).
  rewrite (analyzeVideo_from toLocaleString file (Returns r2) st st).
  pose proof (analyzeVideo_outcome toLocaleString file (Returns r1) st) as O1.
  pose proof (analyzeVideo_outcome toLocaleString file (Returns r2) st) as O2.
  cbv zeta in O1, O2. destruct O1 as (_ & _ & O1). destruct O2 as (_ & _ & O2).
  destruct O1 as [(m1 & F1 & E1)|[F1 E1]], O2 as [(m2 & F2 & E2)|[F2 E2]].
  - rewrite F1, E1, F2, E2. f_equal. f_equal.
    apply analyzeVideo_fields in F1, F2. cbv zeta in F1, F2.
    rewrite <- Hg, <- Hv, <- Ha in F2. unfold Spec.raw_duration in F1, F2.
    rewrite <- Hd in F2.
    destruct F1 as (_ & A1 & A2 & A3 & A4 & A5 & A6 & A7 & A8 & A9 & A10 & A11 & A12).
    destruct F2 as (_ & B1 & B2 & B3 & B4 & B5 & B6 & B7 & B8 & B9 & B10 & B11 & B12).
    apply metadata_eq;
      match goal with
      | HA : ?f m1 = ?x, HB : ?f m2 = ?y |- ?f m1 = ?f m2 => rewrite HA, HB; reflexivity
      end.
  - exfalso. apply analyzeVideo_fields in F1. cbv zeta in F1. destruct F1 as (Hsel & _).
    rewrite Hg, Hv in Hsel.
    destruct (analyzeVideo_success toLocaleString file r2 st Hsel) as [m2 H2].
    rewrite H2 in F2. discriminate.
  - exfalso. apply analyzeVideo_fields in F2. cbv zeta in F2. destruct F2 as (Hsel & _).
    rewrite <- Hg, <- Hv in Hsel.
    destruct (analyzeVideo_success toLocaleString file r1 st Hsel) as [m1 H1].
    rewrite H1 in F1. discriminate.
  - rewrite F1, E1, F2, E2. reflexivity.
Qed.

Lemma analysis_depends_on_selection_witness :
  analyzeVideo Examples.locale Examples.file
    (Returns (Examples.probe_of
       [Examples.general_mp4; Examples.video_hd; Examples.video_4k; Examples.audio_aac]))
    Examples.idle
  = analyzeVideo Examples.locale Examples.file
      (Returns (Examples.probe_of
         [Examples.audio_aac; Examples.general_mp4; Examples.video_hd]))
      Examples.idle.
Proof.
  apply (analysis_depends_on_selection Examples.locale Examples.file
           (Examples.probe_of
              [Examples.general_mp4; Examples.video_hd; Examples.video_4k;
               Examples.audio_aac])
           (Examples.probe_of [Examples.audio_aac; Examples.general_mp4; Examples.video_hd])
           Examples.idle); reflexivity.
Defined.
